(** * Addition-ITS: the attempt pipeline of [app.py]

    A shallow embedding of the check-answer handler, the dashboard query and
    the ontology base-IRI inference of [src/app.py], with the properties the
    specification states about them.

    Python integers are unbounded, hence [Z]; the integers SQLite stores
    are 64-bit, and the driver refuses to bind any other.  A [str] is held
    as its UTF-8 text, a [string]; a [dict] with string keys is a
    [gmap string _]; an rdflib graph is a finite set of triples. *)

From Stdlib Require Import ZArith List Ascii String.
From stdpp Require Import base decidable option numbers list strings
  countable gmap sets pretty sorting.

Open Scope Z_scope.

(** ** Python built-ins used by the handlers *)

Module Py.

(** [str(n)] for an [int]: decimal digits, with a leading minus sign. *)
Definition str (n : Z) : string := pretty n.

(** [s.endswith(suffix)]. *)
Fixpoint endswith (s suffix : string) : bool :=
  if String.eqb s suffix then true
  else match s with
       | EmptyString => false
       | String _ s' => endswith s' suffix
       end.

(** Truthiness of a [str]: the empty string is falsy. *)
Definition truthy (s : string) : bool := negb (String.eqb s "").

End Py.

(** ** rdflib terms and graphs *)

Inductive node : Type :=
| URIRef (iri : string)
| Literal (value : Z) (datatype : string).

Definition triple : Type := node * node * node.

#[global] Instance node_eq_dec : EqDecision node.
Proof. solve_decision. Defined.

#[global] Instance node_countable : Countable node.
Proof.
  refine (inj_countable'
    (fun n => match n with
              | URIRef i => inl i
              | Literal v d => inr (v, d)
              end)
    (fun x => match x with
              | inl i => URIRef i
              | inr (v, d) => Literal v d
              end) _).
  by intros [].
Defined.

(** A graph: its namespace bindings in store order (the prefix may be
    [None]), its identifier when it has one, and its triples. *)
Record Graph : Type := mkGraph {
  namespaces : list (option string * string);
  identifier : option string;
  triples : gset triple
}.

(** [Namespace(base)[name]] is the IRI [base + name]. *)
Definition Namespace (base name : string) : node := URIRef (base +:+ name).

Definition RDF_type : node :=
  URIRef "http://www.w3.org/1999/02/22-rdf-syntax-ns#type".
Definition XSD_integer : string := "http://www.w3.org/2001/XMLSchema#integer".

(** ** Ontology loading: [infer_base_iri] *)

Definition DEFAULT_IRI : string :=
  "http://www.semanticweb.org/nitesh/ontologies/2025/11/math-addition#".

(** [iri if iri.endswith("#") else iri + "#"] *)
Definition with_hash (iri : string) : string :=
  if Py.endswith iri "#" then iri else iri +:+ "#".

(** [prefix in ("", None, "math-addition")] *)
Definition prefix_selected (prefix : option string) : bool :=
  match prefix with
  | None => true
  | Some p => String.eqb p "" || String.eqb p "math-addition"
  end.

(** The [for prefix, uri in graph.namespaces()] loop with its early return;
    [None] when the loop falls through. *)
Fixpoint scan_namespaces (bindings : list (option string * string))
  : option string :=
  match bindings with
  | [] => None
  | (prefix, uri) :: rest =>
      if prefix_selected prefix then Some (with_hash uri)
      else scan_namespaces rest
  end.

Definition infer_base_iri (graph : Graph) : string :=
  match scan_namespaces (namespaces graph) with
  | Some r => r
  | None =>
      let iri :=
        match identifier graph with
        | Some i => if Py.truthy i then i else ""
        | None => ""
        end in
      if Py.truthy iri then with_hash iri else DEFAULT_IRI
  end.

(** ** [int(s)] on form fields *)

Module PyInt.

(** [Py_ISSPACE], the blanks [int] skips around the number: tab, line feed,
    vertical tab, form feed, carriage return and the space. *)
Definition is_space (c : ascii) : bool :=
  let n := nat_of_ascii c in
  ((9 <=? n)%nat && (n <=? 13)%nat) || (n =? 32)%nat.

Definition digit_of (c : ascii) : option Z :=
  let n := nat_of_ascii c in
  if ((48 <=? n)%nat && (n <=? 57)%nat) then Some (Z.of_nat n - 48) else None.

Fixpoint skip_spaces (s : string) : string :=
  match s with
  | String c s' => if is_space c then skip_spaces s' else s
  | EmptyString => s
  end.

(** Digits, with single underscores allowed between two digits.  [acc] is
    the value read so far, [prev_us] tells whether the previous character
    was an underscore.  Returns the value and the unread rest. *)
Fixpoint scan_digits (acc : Z) (prev_us : bool) (s : string)
  : option (Z * string) :=
  match s with
  | EmptyString => if prev_us then None else Some (acc, s)
  | String c s' =>
      match digit_of c with
      | Some d => scan_digits (10 * acc + d) false s'
      | None =>
          if Ascii.eqb c "_" then
            if prev_us then None else scan_digits acc true s'
          else if prev_us then None else Some (acc, s)
      end
  end.

(** The magnitude: it starts with a digit and is followed by blanks only. *)
Definition scan_magnitude (s : string) : option Z :=
  match s with
  | EmptyString => None
  | String c s' =>
      match digit_of c with
      | None => None
      | Some d =>
          match scan_digits d false s' with
          | Some (n, rest) =>
              if String.eqb (skip_spaces rest) "" then Some n else None
          | None => None
          end
      end
  end.

(** The base-ten literal of an ASCII buffer: blanks, an optional sign, the
    magnitude, blanks. *)
Definition parse_ascii (s : string) : option Z :=
  match skip_spaces s with
  | String "-" s' => Z.opp <$> scan_magnitude s'
  | String "+" s' => scan_magnitude s'
  | s' => scan_magnitude s'
  end.

(** [sys.int_max_str_digits]: a literal with more digits is refused.
    Underscores, sign and blanks do not count; leading zeros do. *)
Definition max_str_digits : Z := 4300.

Fixpoint count_digits (s : string) : Z :=
  match s with
  | EmptyString => 0
  | String c s' =>
      match digit_of c with
      | Some _ => 1 + count_digits s'
      | None => count_digits s'
      end
  end.

(** A [str] is a sequence of code points; a form value is held here as its
    UTF-8 text.  [code_points] reads the code points back; it refuses byte
    strings that are not the UTF-8 text of any sequence of code points. *)
Definition continuation (c : ascii) : option N :=
  let b := N_of_ascii c in
  if ((128 <=? b) && (b <? 192))%N then Some (b - 128)%N else None.

Fixpoint code_points (s : string) : option (list N) :=
  match s with
  | EmptyString => Some []
  | String c0 s0 =>
      let b0 := N_of_ascii c0 in
      if (b0 <? 128)%N then cons b0 <$> code_points s0
      else if (b0 <? 192)%N then None
      else if (b0 <? 224)%N then
        match s0 with
        | String c1 s1 =>
            match continuation c1 with
            | Some x1 =>
                let cp := ((b0 - 192) * 64 + x1)%N in
                if (128 <=? cp)%N then cons cp <$> code_points s1 else None
            | None => None
            end
        | EmptyString => None
        end
      else if (b0 <? 240)%N then
        match s0 with
        | String c1 (String c2 s2) =>
            match continuation c1, continuation c2 with
            | Some x1, Some x2 =>
                let cp := ((b0 - 224) * 4096 + x1 * 64 + x2)%N in
                if ((2048 <=? cp) && negb ((55296 <=? cp) && (cp <? 57344)))%N
                then cons cp <$> code_points s2 else None
            | _, _ => None
            end
        | _ => None
        end
      else if (b0 <? 248)%N then
        match s0 with
        | String c1 (String c2 (String c3 s3)) =>
            match continuation c1, continuation c2, continuation c3 with
            | Some x1, Some x2, Some x3 =>
                let cp :=
                  ((b0 - 240) * 262144 + x1 * 4096 + x2 * 64 + x3)%N in
                if ((65536 <=? cp) && (cp <? 1114112))%N
                then cons cp <$> code_points s3 else None
            | _, _, _ => None
            end
        | _ => None
        end
      else None
  end.

(** [Py_UNICODE_ISSPACE] above ASCII: NEL, the no-break space and the
    Unicode space, line and paragraph separators. *)
Definition unicode_is_space (cp : N) : bool :=
  ((cp =? 0x85) || (cp =? 0xa0) || (cp =? 0x1680)
   || ((0x2000 <=? cp) && (cp <=? 0x200a))
   || (cp =? 0x2028) || (cp =? 0x2029) || (cp =? 0x202f)
   || (cp =? 0x205f) || (cp =? 0x3000))%N.

Section Unicode.

(** [Py_UNICODE_TODECIMAL]: the decimal-digit table of the interpreter's
    Unicode database, which grows from one Python version to the next. *)
Variable unicode_decimal : N -> option N.

(** The ASCII buffer [int] parses: a code point below 127 stands as it is,
    a Unicode blank becomes a space, a Unicode decimal digit becomes its
    ASCII digit, and anything else makes the text no number. *)
Definition to_ascii_char (cp : N) : option ascii :=
  if (cp <? 127)%N then Some (ascii_of_N cp)
  else if unicode_is_space cp then Some " "%char
  else match unicode_decimal cp with
       | Some d => if (d <? 10)%N then Some (ascii_of_N (48 + d)) else None
       | None => None
       end.

Fixpoint to_ascii (cps : list N) : option string :=
  match cps with
  | [] => Some EmptyString
  | cp :: rest =>
      match to_ascii_char cp, to_ascii rest with
      | Some c, Some s => Some (String c s)
      | _, _ => None
      end
  end.

(** [int(s)] in base ten; [None] stands for [ValueError]. *)
Definition int (s : string) : option Z :=
  match code_points s ≫= to_ascii with
  | Some buffer =>
      if max_str_digits <? count_digits buffer then None
      else parse_ascii buffer
  | None => None
  end.

End Unicode.

End PyInt.

(** The zero digits of the decimal-digit ranges of Unicode 14.0 above ASCII
    (each is followed by its digits one to nine), and the table they give:
    the database of Python 3.11, used in the examples. *)
Definition unicode_14_zeros : list N :=
  [0x660; 0x6f0; 0x7c0; 0x966; 0x9e6; 0xa66; 0xae6;
   0xb66; 0xbe6; 0xc66; 0xce6; 0xd66; 0xde6; 0xe50;
   0xed0; 0xf20; 0x1040; 0x1090; 0x17e0; 0x1810; 0x1946;
   0x19d0; 0x1a80; 0x1a90; 0x1b50; 0x1bb0; 0x1c40; 0x1c50;
   0xa620; 0xa8d0; 0xa900; 0xa9d0; 0xa9f0; 0xaa50; 0xabf0;
   0xff10; 0x104a0; 0x10d30; 0x11066; 0x110f0; 0x11136; 0x111d0;
   0x112f0; 0x11450; 0x114d0; 0x11650; 0x116c0; 0x11730; 0x118e0;
   0x11950; 0x11c50; 0x11d50; 0x11da0; 0x16a60; 0x16ac0; 0x16b50;
   0x1d7ce; 0x1d7d8; 0x1d7e2; 0x1d7ec; 0x1d7f6; 0x1e140; 0x1e2f0;
   0x1e950; 0x1fbf0]%N.

Definition unicode_14 (cp : N) : option N :=
  (fun z => (cp - z)%N)
    <$> List.find (fun z => ((z <=? cp) && (cp <? z + 10))%N)
          unicode_14_zeros.

(** ** Database model: the [attempt] table *)

Module Attempt.
Record t : Type := mk {
  id : Z;
  user_id : Z;
  a : Z;
  b : Z;
  student_answer : Z;
  correct_answer : Z;
  is_correct : bool;
  timestamp : Z
}.
End Attempt.

(** The object built by [Attempt(...)]: the columns the constructor call
    sets.  [id] and [timestamp] are filled in by the database at INSERT. *)
Record NewAttempt : Type := mkNew {
  new_user_id : Z;
  new_a : Z;
  new_b : Z;
  new_student_answer : Z;
  new_correct_answer : Z;
  new_is_correct : bool
}.

(** SQLite integers are 64-bit: the driver refuses to bind a Python [int]
    outside this range. *)
Definition fits_int64 (z : Z) : bool :=
  (- 2 ^ 63 <=? z) && (z <=? 2 ^ 63 - 1).

(** The integer columns of a new row all fit. *)
Definition bindable (n : NewAttempt) : bool :=
  fits_int64 (new_user_id n) && fits_int64 (new_a n) && fits_int64 (new_b n)
  && fits_int64 (new_student_answer n) && fits_int64 (new_correct_answer n).

(** The integer primary key given to a new row: one more than the largest
    key in the table, 1 for an empty table. *)
Definition next_id (table : list Attempt.t) : Z :=
  1 + foldr (fun r m => Z.max (Attempt.id r) m) 0 table.

(** The key SQLite gives a new row.  It is [next_id] as long as that fits
    in 64 bits.  When the largest key is already 2^63 - 1, SQLite searches
    at random for an unused positive key and gives up if it finds none:
    [search] stands for that search, from the keys in use to the key it
    comes up with. *)
Definition new_key (search : list Z -> option Z) (table : list Attempt.t)
  : option Z :=
  let keys := Attempt.id <$> table in
  if fits_int64 (next_id table) then Some (next_id table)
  else
    match search keys with
    | Some k =>
        if (0 <? k) && fits_int64 k && negb (bool_decide (k ∈ keys))
        then Some k else None
    | None => None
    end.

Definition insert_row (key : Z) (now : Z) (n : NewAttempt) : Attempt.t :=
  Attempt.mk key (new_user_id n) (new_a n) (new_b n)
    (new_student_answer n) (new_correct_answer n) (new_is_correct n) now.

(** The session of a request: the objects added to it and not yet written,
    the one added last apart.  It is scoped to the request and starts
    empty. *)
Record Session : Type := mkSession {
  earlier : list NewAttempt;
  latest : NewAttempt
}.

(** ** Effects: exceptions, the world, and the handler monad *)

Inductive exn : Type :=
| ValueError
| BadRequestKeyError (key : string)
| OverflowError
| OperationalError
| AnnotationError.

Inductive result (A : Type) : Type :=
| Ok (x : A)
| Raise (e : exn).
Arguments Ok {A} x.
Arguments Raise {A} e.

(** What a handler does, in program order. *)
Inductive event : Type :=
| EvSessionAdd (n : NewAttempt)
| EvCommit (row : Attempt.t)
| EvGraphNew
| EvGraphBind (prefix ns : string)
| EvGraphAdd (t : triple)
| EvSerialize
| EvPrint (line : string).

(** The committed rows of the attempt table in rowid order, the database
    clock, SQLite's random search for an unused key, the supply of
    blank-node names, standard output, and the record of the steps
    taken. *)
Record World : Type := mkWorld {
  attempts : list Attempt.t;
  db_now : Z;
  rowid_search : list Z -> option Z;
  bnode_supply : N;
  stdout : list string;
  trace : list event
}.

Definition log (e : event) (w : World) : World :=
  mkWorld (attempts w) (db_now w) (rowid_search w) (bnode_supply w)
    (stdout w) (trace w ++ [e]).

(** State survives an exception: what was committed or printed before the
    [raise] stays. *)
Definition M (A : Type) : Type := World -> result A * World.

Definition ret {A} (x : A) : M A := fun w => (Ok x, w).
Definition raise {A} (e : exn) : M A := fun w => (Raise e, w).
Definition bind {A B} (m : M A) (k : A -> M B) : M B :=
  fun w => match m w with
           | (Ok x, w') => k x w'
           | (Raise e, w') => (Raise e, w')
           end.

Declare Scope handler_scope.
Delimit Scope handler_scope with handler.
Notation "x <- m ;; k" := (bind m (fun x => k))
  (at level 100, m at next level, right associativity) : handler_scope.
Notation "m ;;; k" := (bind m (fun _ => k))
  (at level 100, right associativity) : handler_scope.

(** [request.form[key]] *)
Definition form_get (form : gmap string string) (key : string) : M string :=
  match form !! key with
  | Some v => ret v
  | None => raise (BadRequestKeyError key)
  end.

(** [int(v)] *)
Definition int_ (unicode_decimal : N -> option N) (v : string) : M Z :=
  match PyInt.int unicode_decimal v with
  | Some n => ret n
  | None => raise ValueError
  end.

(** [db.session.add(obj)]: the object joins the session; nothing reaches
    the table yet. *)
Definition db_session_add (pending : list NewAttempt) (obj : NewAttempt)
  : M Session :=
  fun w => (Ok (mkSession pending obj), log (EvSessionAdd obj) w).

(** One INSERT: the integers of the object are bound, which the driver
    refuses with [OverflowError] when one does not fit in 64 bits, and the
    row is stored under a new key; SQLite fails with "database or disk is
    full" ([OperationalError]) when it finds no key. *)
Definition insert (search : list Z -> option Z) (table : list Attempt.t)
    (now : Z) (n : NewAttempt) : result Attempt.t :=
  if bindable n then
    match new_key search table with
    | Some key => Ok (insert_row key now n)
    | None => Raise OperationalError
    end
  else Raise OverflowError.

(** The table after the INSERTs of a list of objects, one after the other,
    up to the first that fails. *)
Fixpoint flush (search : list Z -> option Z) (table : list Attempt.t)
    (now : Z) (objects : list NewAttempt) : result (list Attempt.t) :=
  match objects with
  | [] => Ok table
  | n :: rest =>
      match insert search table now n with
      | Ok row => flush search (table ++ [row]) now rest
      | Raise e => Raise e
      end
  end.

(** [db.session.commit()]: the objects of the session are inserted in the
    order they were added and the transaction is committed; the object added
    last then reads as its persistent row, with its key.  When an INSERT
    fails the transaction is rolled back: nothing is written. *)
Definition db_session_commit (session : Session) : M Attempt.t :=
  fun w =>
    match flush (rowid_search w) (attempts w) (db_now w) (earlier session) with
    | Ok table =>
        match insert (rowid_search w) table (db_now w) (latest session) with
        | Ok row =>
            (Ok row,
             log (EvCommit row)
               (mkWorld (table ++ [row]) (db_now w) (rowid_search w)
                  (bnode_supply w) (stdout w) (trace w)))
        | Raise e => (Raise e, w)
        end
    | Raise e => (Raise e, w)
    end.

(** [Graph()]: an empty graph named by a fresh blank node.  (The prefixes
    rdflib binds by default are left out; nothing below reads them.) *)
Definition Graph_ : M Graph :=
  fun w =>
    (Ok (mkGraph [] (Some ("N" +:+ pretty (bnode_supply w))) ∅),
     log EvGraphNew
       (mkWorld (attempts w) (db_now w) (rowid_search w)
          (N.succ (bnode_supply w)) (stdout w) (trace w))).

(** [g.bind(prefix, ns)] *)
Definition graph_bind (g : Graph) (prefix ns : string) : M Graph :=
  fun w =>
    (Ok (mkGraph (namespaces g ++ [(Some prefix, ns)]) (identifier g)
           (triples g)),
     log (EvGraphBind prefix ns) w).

(** [g.add(t)]: a graph is a set, adding a triple twice changes nothing. *)
Definition add_triple (g : Graph) (t : triple) : Graph :=
  mkGraph (namespaces g) (identifier g) ({[ t ]} ∪ triples g).

Definition graph_add (g : Graph) (t : triple) : M Graph :=
  fun w => (Ok (add_triple g t), log (EvGraphAdd t) w).

(** [print(line)] *)
Definition print (line : string) : M unit :=
  fun w =>
    (Ok tt,
     log (EvPrint line)
       (mkWorld (attempts w) (db_now w) (rowid_search w) (bnode_supply w)
          (stdout w ++ [line]) (trace w))).

(** JSON values of the response body. *)
Inductive json : Type :=
| JBool (b : bool)
| JInt (n : Z)
| JStr (s : string).

(** ** The [/check] handler *)

Definition header_line : string := "
--- Student Attempt (OWL/Turtle) ---".

Section Handlers.

(** The decimal-digit table of the interpreter, the ontology graph parsed
    at start-up, and rdflib's Turtle serializer, which may fail. *)
Variable unicode_decimal : N -> option N.
Variable ONTOLOGY : Graph.
Variable serialize_turtle : Graph -> result string.

Definition ONTO_IRI : string := infer_base_iri ONTOLOGY.
Definition MATH (name : string) : node := Namespace ONTO_IRI name.

(** The four instance names of an attempt:
    [Expr_{id}], [Num_{a}_{id}], [Num_{b}_{id}], [Num_{student_ans}_{id}]. *)
Definition expr_iri (attempt_id : Z) : node :=
  MATH ("Expr_" +:+ Py.str attempt_id).
Definition num_iri (value attempt_id : Z) : node :=
  MATH ("Num_" +:+ Py.str value +:+ "_" +:+ Py.str attempt_id).

Definition int_literal (n : Z) : node := Literal n XSD_integer.

(** The ten triples asserted for an attempt, in the order of the [g.add]
    calls. *)
Definition attempt_triples (attempt_id a b student_ans : Z) : list triple :=
  let expr := expr_iri attempt_id in
  let num_a := num_iri a attempt_id in
  let num_b := num_iri b attempt_id in
  let num_res := num_iri student_ans attempt_id in
  [ (expr, RDF_type, MATH "AdditionExpression");
    (expr, MATH "hasAdded", num_a);
    (expr, MATH "hasAdded", num_b);
    (expr, MATH "hasResult", num_res);
    (num_a, RDF_type, MATH "Number");
    (num_b, RDF_type, MATH "Number");
    (num_res, RDF_type, MATH "Number");
    (num_a, MATH "hasValue", int_literal a);
    (num_b, MATH "hasValue", int_literal b);
    (num_res, MATH "hasValue", int_literal student_ans) ].

Fixpoint graph_add_all (g : Graph) (ts : list triple) : M Graph :=
  match ts with
  | [] => ret g
  | t :: ts' => bind (graph_add g t) (fun g' => graph_add_all g' ts')
  end.

(** [g.serialize(format="turtle")] *)
Definition graph_serialize (g : Graph) : M string :=
  fun w =>
    match serialize_turtle g with
    | Ok s => (Ok s, log EvSerialize w)
    | Raise e => (Raise e, log EvSerialize w)
    end.

(** Lines 164-185: the graph built for an attempt. *)
Definition annotate (attempt_id a b student_ans : Z) : M Graph :=
  (g <- Graph_ ;;
   g <- graph_bind g "math" ONTO_IRI ;;
   graph_add_all g (attempt_triples attempt_id a b student_ans))%handler.

Definition message (is_correct : bool) (a b correct : Z) : string :=
  if is_correct
  then "✅ Correct! " +:+ Py.str a +:+ " + " +:+ Py.str b +:+ " = "
         +:+ Py.str correct
  else "❌ Try again. " +:+ Py.str a +:+ " + " +:+ Py.str b +:+ " = "
         +:+ Py.str correct.

(** The dictionary handed to [jsonify]. *)
Definition payload (is_correct : bool) (a b correct : Z) : gmap string json :=
  <["correct" := JBool is_correct]>
    (<["answer" := JInt correct]>
       (<["message" := JStr (message is_correct a b correct)]> ∅)).

Definition check_answer (form : gmap string string) (current_user_id : Z)
  : M (gmap string json) :=
  (a <- bind (form_get form "a") (int_ unicode_decimal) ;;
   b <- bind (form_get form "b") (int_ unicode_decimal) ;;
   student_ans <- bind (form_get form "answer") (int_ unicode_decimal) ;;
   let correct := a + b in
   let is_correct := student_ans =? correct in
   let attempt :=
     mkNew current_user_id a b student_ans correct is_correct in
   session <- db_session_add [] attempt ;;
   attempt <- db_session_commit session ;;
   g <- annotate (Attempt.id attempt) a b student_ans ;;
   print header_line ;;;
   ttl <- graph_serialize g ;;
   print ttl ;;;
   ret (payload is_correct a b correct))%handler.

(** ** The [/dashboard] handler *)

(** [filter_by(user_id=uid)] over the table in rowid order. *)
Definition filter_by_user_id (uid : Z) (rows : list Attempt.t)
  : list Attempt.t :=
  List.filter (fun r => Attempt.user_id r =? uid) rows.

(** [order_by(Attempt.timestamp.desc())]: the only sort key is the
    timestamp.  SQL leaves the order of rows with equal keys to the engine;
    here they stay in scan order. *)
Fixpoint insert_desc (x : Attempt.t) (sorted : list Attempt.t)
  : list Attempt.t :=
  match sorted with
  | [] => [x]
  | y :: rest =>
      if Attempt.timestamp y <=? Attempt.timestamp x then x :: y :: rest
      else y :: insert_desc x rest
  end.

Definition order_by_timestamp_desc (rows : list Attempt.t) : list Attempt.t :=
  foldr insert_desc [] rows.

Record Pagination : Type := mkPagination {
  items : list Attempt.t;
  page : Z;
  per_page : Z;
  total : Z
}.

(** [paginate(page=page, per_page=per_page, error_out=False)]: a page
    below 1 is read as page 1; a page past the end is empty.  LIMIT and
    OFFSET are bound as integers: an offset that does not fit in 64 bits
    makes the driver raise [OverflowError]. *)
Definition paginate (page per_page : Z) (rows : list Attempt.t)
  : result Pagination :=
  let page := if page <? 1 then 1 else page in
  let offset := (page - 1) * per_page in
  if fits_int64 offset then
    Ok (mkPagination (take (Z.to_nat per_page) (drop (Z.to_nat offset) rows))
          page per_page (Z.of_nat (length rows)))
  else Raise OverflowError.

(** [request.args.get('page', 1, type=int)]: the default when the argument
    is absent or does not convert. *)
Definition page_arg (arg : option string) : Z :=
  match arg with
  | None => 1
  | Some v =>
      match PyInt.int unicode_decimal v with Some n => n | None => 1 end
  end.

Definition dashboard (arg : option string) (current_user_id : Z) (w : World)
  : result Pagination :=
  let page := page_arg arg in
  let per_page := 10 in
  paginate page per_page
    (order_by_timestamp_desc
       (filter_by_user_id current_user_id (attempts w))).

End Handlers.

(** The attempts a dashboard response shows: the items of the page, and
    nothing when the request ended in an exception. *)
Definition shown (response : result Pagination) : list Attempt.t :=
  match response with
  | Ok p => items p
  | Raise _ => []
  end.

(** ** Small concrete data used in the examples below *)

Definition empty_graph : Graph := mkGraph [] None ∅.

(** A search that finds no key. *)
Definition no_key : list Z -> option Z := fun _ => None.

Definition world0 : World := mkWorld [] 1000 no_key 0 [] [].

Definition form_of (a b answer : string) : gmap string string :=
  <["a" := a]> (<["b" := b]> (<["answer" := answer]> ∅)).

Definition serializer_ok : Graph -> result string := fun _ => Ok "".
Definition serializer_failing : Graph -> result string :=
  fun _ => Raise AnnotationError.

Definition row (id uid ts : Z) : Attempt.t :=
  Attempt.mk id uid 1 1 2 2 true ts.

(** User 5 answers twice while the database clock shows the same second. *)
Definition world_after_two_attempts : World :=
  (check_answer unicode_14 empty_graph serializer_ok (form_of "2" "2" "4") 5
     (check_answer unicode_14 empty_graph serializer_ok
        (form_of "3" "4" "7") 5 world0).2).2.

(** ** Definitions that follow the specification's words *)

(** Spec 4.1, steps 1 to 3: a binding whose prefix is the default one (empty
    or absent) or the domain keyword; else the graph's identifier, if it has
    one (an empty identifier counts as none); else the hard-coded default. *)
Definition default_or_domain_prefix (binding : option string * string)
  : Prop :=
  binding.1 = None ∨ binding.1 = Some "" ∨ binding.1 = Some "math-addition".

#[global] Instance default_or_domain_prefix_dec binding :
  Decision (default_or_domain_prefix binding).
Proof. unfold default_or_domain_prefix. apply _. Defined.

Definition chosen_base_iri_spec (g : Graph) : string :=
  match list_find default_or_domain_prefix (namespaces g) with
  | Some (_, (_, uri)) => uri
  | None =>
      match identifier g with
      | Some i => if decide (i = "") then DEFAULT_IRI else i
      | None => DEFAULT_IRI
      end
  end.

Definition ends_with_hash (s : string) : Prop := ∃ p, s = p +:+ "#".

(** Spec 6: the result payload [{is_correct: bool, correct: int,
    message: string}]. *)
Definition spec_payload_shape (p : gmap string json) : Prop :=
  ∃ (ic : bool) (c : Z) (m : string),
    p !! "is_correct" = Some (JBool ic) ∧
    p !! "correct" = Some (JInt c) ∧
    p !! "message" = Some (JStr m).

(** Spec 4.3: creation timestamp descending, ties broken by identifier
    descending. *)
Definition spec_newest_first (x y : Attempt.t) : Prop :=
  Attempt.timestamp y < Attempt.timestamp x ∨
  (Attempt.timestamp y = Attempt.timestamp x ∧ Attempt.id y < Attempt.id x).

(** What the query asks for: creation timestamp descending. *)
Definition timestamp_desc (x y : Attempt.t) : Prop :=
  Attempt.timestamp y <= Attempt.timestamp x.

(** The instance names of an attempt, as minted on lines 168-171. *)
Definition attempt_iris (ontology : Graph) (attempt_id a b student_ans : Z)
  : list node :=
  [ expr_iri ontology attempt_id;
    num_iri ontology a attempt_id;
    num_iri ontology b attempt_id;
    num_iri ontology student_ans attempt_id ].

(** Steps that belong to semantic annotation: graph construction, triple
    assertion, serialization. *)
Definition annotation_step (e : event) : Prop :=
  match e with
  | EvGraphNew | EvGraphBind _ _ | EvGraphAdd _ | EvSerialize => True
  | EvSessionAdd _ | EvCommit _ | EvPrint _ => False
  end.

(** The graph [annotate] builds when the blank-node supply stands at [k]. *)
Definition attempt_graph (ontology : Graph) (k : N)
    (attempt_id a b student_ans : Z) : Graph :=
  mkGraph [(Some "math", ONTO_IRI ontology)] (Some ("N" +:+ pretty k))
    (list_to_set (attempt_triples ontology attempt_id a b student_ans)).

(** The integer a form field converts to, when it is present and
    numeric. *)
Definition form_int (unicode_decimal : N -> option N)
    (form : gmap string string) (key : string) : option Z :=
  form !! key ≫= PyInt.int unicode_decimal.

(** The row of a request can be stored under the next key: its integers
    and that key fit in 64 bits. *)
Definition storable (table : list Attempt.t) (uid a b s : Z) : bool :=
  bindable (mkNew uid a b s (a + b) (s =? a + b))
  && fits_int64 (next_id table).

(** The steps of a run of [check_answer] up to and including the call of
    the serializer. *)
Definition steps_to_serialize (ontology : Graph) (new : NewAttempt)
    (row : Attempt.t) : list event :=
  [EvSessionAdd new; EvCommit row; EvGraphNew;
   EvGraphBind "math" (ONTO_IRI ontology)]
  ++ map EvGraphAdd
       (attempt_triples ontology (Attempt.id row) (new_a new) (new_b new)
          (new_student_answer new))
  ++ [EvPrint header_line; EvSerialize].

(** Text made of code points below 127 only. *)
Fixpoint plain_text (s : string) : bool :=
  match s with
  | EmptyString => true
  | String c s' => (N_of_ascii c <? 127)%N && plain_text s'
  end.

Fixpoint no_underscore (s : string) : Prop :=
  match s with
  | EmptyString => True
  | String c s' => c ≠ "_"%char ∧ no_underscore s'
  end.

(** ** Start-up: the ontology report (lines 43-60) *)

Definition required_classes : list string := ["Number"; "AdditionExpression"].
Definition required_props : list string :=
  ["hasAdded"; "hasResult"; "hasValue"].

(** [(s, None, None) in graph]: some triple has subject [s]. *)
Definition has_subject (graph : Graph) (s : node) : bool :=
  bool_decide (set_Exists (λ t : triple, t.1.1 = s) (triples graph)).

Section Startup.

Variable ONTOLOGY : Graph.
(** [Config.ONTOLOGY_PATH], which depends on where the package is
    installed. *)
Variable ONTOLOGY_PATH : string.

Definition loaded_line : string :=
  "✅ Ontology loaded from " +:+ ONTOLOGY_PATH.
Definition base_iri_line : string :=
  "   Base IRI: " +:+ ONTO_IRI ONTOLOGY.
Definition class_warning (cls : string) : string :=
  "⚠️ Warning: Class " +:+ cls +:+ " not found in ontology".
Definition property_warning (prop : string) : string :=
  "⚠️ Warning: Property " +:+ prop +:+ " not found in ontology".

(** [for name in names: if (MATH[name], None, None) not in ONTOLOGY:
    print(warning(name))] *)
Fixpoint warn_missing (warning : string -> string) (names : list string)
  : M unit :=
  match names with
  | [] => ret tt
  | name :: rest =>
      bind (if has_subject ONTOLOGY (MATH ONTOLOGY name) then ret tt
            else print (warning name))
        (fun _ => warn_missing warning rest)
  end.

Definition verify_ontology : M unit :=
  (print loaded_line ;;;
   print base_iri_line ;;;
   warn_missing class_warning required_classes ;;;
   warn_missing property_warning required_props)%handler.

End Startup.

(** ** Accounts: [register], [login], [logout], [load_user] *)

Module User.
Record t : Type := mk {
  id : Z;
  email : string;
  password_hash : string
}.
End User.

Inductive http_method : Type := GET | POST.

Inductive response : Type :=
| Redirect (endpoint : string)
| RedirectLogin (next : string)
| Render (template : string).

(** The committed rows of the user table in rowid order, the user id kept in
    the browser session by [login_user] (the text [str(user.id)]), and the
    messages flashed so far. *)
Record Accounts : Type := mkAccounts {
  users : list User.t;
  session_user_id : option string;
  flashes : list string
}.

Definition next_user_id (table : list User.t) : Z :=
  1 + foldr (fun u m => Z.max (User.id u) m) 0 table.

(** [User.query.filter_by(email=email).first()] *)
Definition first_by_email (email : string) (table : list User.t)
  : option User.t :=
  List.find (fun u => String.eqb (User.email u) email) table.

(** [flash(message)] *)
Definition flash (message : string) (w : Accounts) : Accounts :=
  mkAccounts (users w) (session_user_id w) (flashes w ++ [message]).

(** [login_user(user)] *)
Definition login_user (user : User.t) (w : Accounts) : Accounts :=
  mkAccounts (users w) (Some (Py.str (User.id user))) (flashes w).

(** [logout_user()] *)
Definition logout_user (w : Accounts) : Accounts :=
  mkAccounts (users w) None (flashes w).

Section Accounts.

(** werkzeug's password hashing; [generate_password_hash] draws a salt. *)
Variable generate_password_hash : string -> string -> string.
Variable check_password_hash : string -> string -> bool.

Definition register (method : http_method) (form : gmap string string)
    (salt : string) (w : Accounts) : result response * Accounts :=
  match method with
  | POST =>
      match form !! "email" with
      | None => (Raise (BadRequestKeyError "email"), w)
      | Some email =>
          match form !! "password" with
          | None => (Raise (BadRequestKeyError "password"), w)
          | Some password =>
              match first_by_email email (users w) with
              | Some _ =>
                  (Ok (Redirect "register"),
                   flash "Email already registered" w)
              | None =>
                  let user :=
                    User.mk (next_user_id (users w)) email
                      (generate_password_hash salt password) in
                  (Ok (Redirect "home"),
                   login_user user
                     (mkAccounts (users w ++ [user]) (session_user_id w)
                        (flashes w)))
              end
          end
      end
  | GET => (Ok (Render "register.html"), w)
  end.

Definition login (method : http_method) (form : gmap string string)
    (w : Accounts) : result response * Accounts :=
  match method with
  | POST =>
      match form !! "email" with
      | None => (Raise (BadRequestKeyError "email"), w)
      | Some email =>
          match form !! "password" with
          | None => (Raise (BadRequestKeyError "password"), w)
          | Some password =>
              match first_by_email email (users w) with
              | Some user =>
                  if check_password_hash (User.password_hash user) password
                  then (Ok (Redirect "home"), login_user user w)
                  else (Ok (Render "login.html"),
                        flash "Invalid email or password" w)
              | None =>
                  (Ok (Render "login.html"),
                   flash "Invalid email or password" w)
              end
          end
      end
  | GET => (Ok (Render "login.html"), w)
  end.

End Accounts.

(** [User.query.get(int(user_id))]: the key is bound as a parameter of the
    query, which the driver refuses when it does not fit in 64 bits. *)
Definition load_user (unicode_decimal : N -> option N) (user_id : string)
    (table : list User.t) : result (option User.t) :=
  match PyInt.int unicode_decimal user_id with
  | Some n =>
      if fits_int64 n then Ok (List.find (fun u => User.id u =? n) table)
      else Raise OverflowError
  | None => Raise ValueError
  end.

(** [current_user]: the user the loader finds for the id kept in the
    session, if any. *)
Definition current_user (unicode_decimal : N -> option N) (w : Accounts)
  : result (option User.t) :=
  match session_user_id w with
  | None => Ok None
  | Some user_id => load_user unicode_decimal user_id (users w)
  end.

(** [@login_required] around [logout]: with nobody logged in the body does
    not run; the login manager flashes its message and redirects to the
    login view, with the requested path as [next]. *)
Definition logout (unicode_decimal : N -> option N) (w : Accounts)
  : result response * Accounts :=
  match current_user unicode_decimal w with
  | Raise e => (Raise e, w)
  | Ok None =>
      (Ok (RedirectLogin "/logout"),
       flash "Please log in to access this page." w)
  | Ok (Some _) => (Ok (Redirect "login"), logout_user w)
  end.

(** ** More concrete data for the examples *)

Definition toy_generate_password_hash (salt password : string) : string :=
  salt +:+ "$" +:+ password.
Definition toy_check_password_hash (pwhash password : string) : bool :=
  Py.endswith pwhash ("$" +:+ password).

Definition accounts0 : Accounts := mkAccounts [] None [].

Definition credentials (email password : string) : gmap string string :=
  <["email" := email]> (<["password" := password]> ∅).

(** An ontology that declares the five required terms. *)
Definition full_ontology : Graph :=
  mkGraph [(Some "", "http://x/")] None
    (list_to_set
       ((λ name, (URIRef ("http://x/#" +:+ name), RDF_type,
                  URIRef "http://www.w3.org/2002/07/owl#Thing"))
          <$> (required_classes ++ required_props))).

(** What reading one form field as an integer fails with, if it fails:
    the key is missing, or its value is not numeric. *)
Definition field_error (unicode_decimal : N -> option N)
    (form : gmap string string) (key : string) : option exn :=
  match form !! key with
  | None => Some (BadRequestKeyError key)
  | Some v =>
      match PyInt.int unicode_decimal v with
      | None => Some ValueError
      | Some _ => None
      end
  end.

(** * Properties *)

(** ** Strings *)

Lemma endswith_iff (s suffix : string) :
  Py.endswith s suffix = true ↔ ∃ p, s = p +:+ suffix.
Proof.
  induction s as [|c s IH]; cbn [Py.endswith].
  - destruct (String.eqb_spec "" suffix) as [<-|Hne].
    + split; [by exists ""|done].
    + split; [done|]. intros [[|c p] Hp]; simpl in Hp; [by subst|done].
  - destruct (String.eqb_spec (String c s) suffix) as [<-|Hne].
    + split; [by exists ""|done].
    + rewrite IH. split.
      * intros [p ->]. by exists (String c p).
      * intros [[|c' p] Hp]; simpl in Hp; [by subst|].
        injection Hp as -> ->. by exists p.
Qed.

Lemma with_hash_ends (iri : string) : ends_with_hash (with_hash iri).
Proof.
  unfold with_hash. destruct (Py.endswith iri "#") eqn:E.
  - by apply endswith_iff.
  - by exists iri.
Qed.

Lemma with_hash_id (iri : string) : ends_with_hash iri → with_hash iri = iri.
Proof.
  intros H. unfold with_hash.
  destruct (Py.endswith iri "#") eqn:E; [done|].
  apply (proj2 (endswith_iff iri "#")) in H. congruence.
Qed.

Lemma with_hash_app (iri : string) :
  ¬ ends_with_hash iri → with_hash iri = iri +:+ "#".
Proof.
  intros H. unfold with_hash.
  destruct (Py.endswith iri "#") eqn:E; [|done].
  apply endswith_iff in E. by destruct H.
Qed.

Lemma truthy_iff (s : string) : Py.truthy s = true ↔ s ≠ "".
Proof.
  unfold Py.truthy. destruct (String.eqb_spec s ""); naive_solver.
Qed.

(** ** Base-IRI inference *)

Lemma prefix_selected_iff (binding : option string * string) :
  prefix_selected binding.1 = true ↔ default_or_domain_prefix binding.
Proof.
  destruct binding as [[p|] uri]; unfold default_or_domain_prefix; simpl.
  - rewrite orb_true_iff, !String.eqb_eq. split.
    + intros [->| ->]; auto.
    + intros [H|[H|H]]; inversion H; auto.
  - split; auto.
Qed.

Lemma scan_namespaces_find (bindings : list (option string * string)) :
  scan_namespaces bindings =
    (λ hit, with_hash hit.2.2) <$> list_find default_or_domain_prefix bindings.
Proof.
  induction bindings as [|[p uri] rest IH]; [done|].
  cbn [scan_namespaces list_find].
  destruct (prefix_selected p) eqn:E.
  - rewrite decide_True; [done|]. by apply (prefix_selected_iff (p, uri)).
  - rewrite decide_False.
    + rewrite IH. by destruct (list_find _ rest) as [[? [? ?]]|].
    + intros H. apply (prefix_selected_iff (p, uri)) in H. simpl in H.
      congruence.
Qed.

Lemma infer_base_iri_spec_eq (g : Graph) :
  infer_base_iri g = with_hash (chosen_base_iri_spec g).
Proof.
  unfold infer_base_iri, chosen_base_iri_spec.
  rewrite scan_namespaces_find.
  destruct (list_find _ _) as [[? [? uri]]|]; simpl; [done|].
  destruct (identifier g) as [i|]; [|done].
  destruct (decide (i = "")) as [->|Hne]; [done|].
  apply truthy_iff in Hne. by rewrite !Hne.
Qed.

(** C7. [infer_base_iri] always returns a string ending in '#': the IRI
    chosen by the three-step rule (selected namespace binding, else graph
    identifier, else the hard-coded default), left as it is when it already
    ends in '#' and extended by '#' otherwise.  A default-prefix binding to
    "http://x/" gives "http://x/#"; no bindings and no identifier give the
    default, which ends in '#'. *)
Theorem infer_base_iri_ends_with_hash (g : Graph) :
  ends_with_hash (infer_base_iri g) ∧
  (ends_with_hash (chosen_base_iri_spec g) →
     infer_base_iri g = chosen_base_iri_spec g) ∧
  (¬ ends_with_hash (chosen_base_iri_spec g) →
     infer_base_iri g = chosen_base_iri_spec g +:+ "#") ∧
  (∀ rest ident ts,
     infer_base_iri (mkGraph ((Some "", "http://x/") :: rest) ident ts)
     = "http://x/#") ∧
  (∀ ts, infer_base_iri (mkGraph [] None ts) = DEFAULT_IRI) ∧
  ends_with_hash DEFAULT_IRI.
Proof.
  rewrite infer_base_iri_spec_eq. split_and!.
  - apply with_hash_ends.
  - apply with_hash_id.
  - apply with_hash_app.
  - done.
  - done.
  - by apply endswith_iff.
Qed.

(** ** [int] and [str] *)

Example int_examples :
  PyInt.int unicode_14 "7" = Some 7 ∧
  PyInt.int unicode_14 " -1_2 " = Some (-12) ∧
  PyInt.int unicode_14 "+007" = Some 7 ∧
  PyInt.int unicode_14 "１２" = Some 12 ∧
  PyInt.int unicode_14 "　٣　" = Some 3 ∧
  PyInt.int unicode_14 "" = None ∧
  PyInt.int unicode_14 "abc" = None ∧
  PyInt.int unicode_14 "1__2" = None ∧
  PyInt.int unicode_14 "- 5" = None ∧
  PyInt.int unicode_14 "3.0" = None ∧
  PyInt.int unicode_14 "½" = None ∧
  PyInt.int unicode_14 (String (ascii_of_nat 28) "5") = None.
Proof. by split_and!. Qed.

(** The limit on the number of digits: 4300 are read, 4301 are refused. *)
Example int_digit_limit :
  PyInt.int unicode_14 (string_of_list_ascii (repeat "1"%char 4300)) ≠ None ∧
  PyInt.int unicode_14 (string_of_list_ascii (repeat "1"%char 4301)) = None.
Proof. split; by vm_compute. Qed.

Example str_examples :
  Py.str 0 = "0" ∧ Py.str 42 = "42" ∧ Py.str (-12) = "-12".
Proof. by split_and!. Qed.

Lemma digit_of_pretty_N_char (d : N) :
  (d < 10)%N → PyInt.digit_of (pretty_N_char d) = Some (Z.of_N d).
Proof.
  intros Hd.
  assert (d = 0 ∨ d = 1 ∨ d = 2 ∨ d = 3 ∨ d = 4 ∨ d = 5 ∨ d = 6 ∨ d = 7
          ∨ d = 8 ∨ d = 9)%N as H by lia.
  repeat destruct H as [->|H]; try subst d; reflexivity.
Qed.

Lemma parse_ascii_digit_first (c : ascii) (t : string) (d : Z) :
  PyInt.digit_of c = Some d →
  PyInt.parse_ascii (String c t) = PyInt.scan_magnitude (String c t).
Proof.
  intros H. destruct c as [[] [] [] [] [] [] [] []];
    vm_compute in H; try discriminate; reflexivity.
Qed.

Lemma pretty_N_go_digit_first (x : N) (s : string) :
  (0 < x)%N →
  ∃ c t d, pretty_N_go x s = String c t ∧ PyInt.digit_of c = Some d.
Proof.
  revert s. induction (N.lt_wf_0 x) as [x _ IH]; intros s Hx.
  rewrite pretty_N_go_step by done.
  destruct (decide (x `div` 10 = 0)%N) as [->|Hq].
  - rewrite pretty_N_go_0. eexists _, _, _. split; [done|].
    apply digit_of_pretty_N_char. by apply N.mod_lt.
  - apply IH; [apply N.div_lt; lia|by apply N.neq_0_lt_0].
Qed.

Lemma scan_digits_pretty_N_go (x : N) :
  (0 < x)%N →
  ∃ k, ∀ s acc,
    PyInt.scan_digits acc false (pretty_N_go x s)
    = PyInt.scan_digits (acc * k + Z.of_N x) false s.
Proof.
  induction (N.lt_wf_0 x) as [x _ IH]; intros Hx.
  assert (PyInt.digit_of (pretty_N_char (x `mod` 10))
          = Some (Z.of_N (x `mod` 10))) as Hd.
  { apply digit_of_pretty_N_char. by apply N.mod_lt. }
  pose proof (N.div_mod x 10 ltac:(done)) as Hdm.
  remember (x `div` 10)%N as q eqn:Eq. remember (x `mod` 10)%N as r eqn:Er.
  destruct (decide (q = 0)%N) as [Hq|Hq].
  - exists 10. intros s acc.
    rewrite pretty_N_go_step, <- Eq, <- Er, Hq, pretty_N_go_0 by done.
    cbn [PyInt.scan_digits]. rewrite Hd. f_equal. lia.
  - destruct (IH q) as [k Hk]; [subst q; apply N.div_lt; lia|lia|].
    exists (10 * k). intros s acc.
    rewrite pretty_N_go_step, <- Eq, <- Er, Hk by done.
    cbn [PyInt.scan_digits]. rewrite Hd. f_equal. lia.
Qed.

Lemma parse_ascii_pretty (p : positive) :
  PyInt.parse_ascii (pretty (Npos p)) = Some (Zpos p) ∧
  PyInt.scan_magnitude (pretty (Npos p)) = Some (Zpos p).
Proof.
  unfold pretty, pretty_N. rewrite decide_False by done.
  destruct (pretty_N_go_digit_first (Npos p) "") as (c & t & d & Heq & Hd);
    [lia|].
  destruct (scan_digits_pretty_N_go (Npos p)) as [k Hk]; [lia|].
  specialize (Hk "" 0). rewrite Heq in Hk |- *.
  rewrite (parse_ascii_digit_first _ _ _ Hd).
  assert (PyInt.scan_magnitude (String c t) = Some (Z.pos p)) as ->; [|done].
  cbn [PyInt.scan_digits] in Hk. rewrite Hd in Hk.
  unfold PyInt.scan_magnitude. rewrite Hd.
  replace (10 * 0 + d) with d in Hk by lia. rewrite Hk.
  reflexivity.
Qed.

Lemma parse_ascii_str (n : Z) : PyInt.parse_ascii (Py.str n) = Some n.
Proof.
  destruct n as [|p|p]; [done|apply parse_ascii_pretty|].
  unfold Py.str, pretty, pretty_Z.
  change (PyInt.parse_ascii ("-" +:+ pretty p))
    with (Z.opp <$> PyInt.scan_magnitude (pretty (Npos p))).
  by rewrite (proj2 (parse_ascii_pretty p)).
Qed.

(** The text of an integer is ASCII: [int] reads it as it stands. *)
Lemma pretty_N_go_plain (x : N) (s : string) :
  plain_text s = true → plain_text (pretty_N_go x s) = true.
Proof.
  revert s. induction (N.lt_wf_0 x) as [x _ IH]; intros s Hs.
  destruct (decide (x = 0)%N) as [->|Hx]; [done|].
  rewrite pretty_N_go_step by lia.
  apply IH; [apply N.div_lt; lia|].
  cbn [plain_text]. rewrite Hs. unfold pretty_N_char. by repeat case_match.
Qed.

Lemma str_plain (n : Z) : plain_text (Py.str n) = true.
Proof.
  assert (∀ x : N, plain_text (pretty x) = true) as HN.
  { intros x. unfold pretty, pretty_N. case_decide; [done|].
    by apply pretty_N_go_plain. }
  destruct n as [|p|p]; unfold Py.str, pretty, pretty_Z; [done|apply HN|].
  change ("-" +:+ pretty p) with (String "-" (pretty (Npos p))).
  cbn [plain_text]. by rewrite HN.
Qed.

Lemma plain_text_buffer (dec : N → option N) (s : string) :
  plain_text s = true →
  PyInt.code_points s ≫= PyInt.to_ascii dec = Some s.
Proof.
  induction s as [|c s IH]; [done|]. cbn [plain_text].
  intros [Hc Hs]%andb_true_iff. apply N.ltb_lt in Hc.
  cbn [PyInt.code_points].
  destruct (N.ltb_spec (N_of_ascii c) 128) as [_|?]; [|lia].
  specialize (IH Hs).
  destruct (PyInt.code_points s) as [cps|]; [|done]. cbn in IH |- *.
  unfold PyInt.to_ascii_char.
  destruct (N.ltb_spec (N_of_ascii c) 127) as [_|?]; [|lia].
  by rewrite IH, ascii_N_embedding.
Qed.

(** The digits of the text of an integer below [10 ^ k]. *)
Lemma count_digits_pretty_N_go (k x : N) (s : string) :
  (x < 10 ^ k)%N →
  PyInt.count_digits (pretty_N_go x s) ≤ PyInt.count_digits s + Z.of_N k.
Proof.
  revert k s. induction (N.lt_wf_0 x) as [x _ IH]; intros k s Hx.
  destruct (decide (x = 0)%N) as [->|Hx0]; [rewrite pretty_N_go_0; lia|].
  rewrite pretty_N_go_step by lia.
  destruct (decide (k = 0)%N) as [->|Hk]; [rewrite N.pow_0_r in Hx; lia|].
  assert (x `div` 10 < 10 ^ (k - 1))%N as Hq.
  { apply N.Div0.div_lt_upper_bound.
    rewrite <- N.pow_succ_r'. by replace (N.succ (k - 1)) with k by lia. }
  specialize (IH (x `div` 10)%N ltac:(apply N.div_lt; lia) (k - 1)%N
                (String (pretty_N_char (x `mod` 10)) s) Hq).
  cbn [PyInt.count_digits] in IH.
  rewrite digit_of_pretty_N_char in IH by (by apply N.mod_lt). lia.
Qed.

Lemma count_digits_str (k : N) (n : Z) :
  (0 < k)%N →
  Z.abs n < 10 ^ Z.of_N k → PyInt.count_digits (Py.str n) ≤ Z.of_N k.
Proof.
  intros Hk Hn.
  assert (∀ p : positive, Z.pos p < 10 ^ Z.of_N k →
            PyInt.count_digits (pretty (Npos p)) ≤ Z.of_N k) as Hpos.
  { intros p Hp. unfold pretty, pretty_N. rewrite decide_False by done.
    pose proof (count_digits_pretty_N_go k (Npos p) "") as H.
    cbn [PyInt.count_digits] in H. apply H.
    apply N2Z.inj_lt. rewrite N2Z.inj_pow. done. }
  destruct n as [|p|p]; unfold Py.str, pretty, pretty_Z.
  - change (PyInt.count_digits "0") with 1. lia.
  - by apply Hpos.
  - change ("-" +:+ pretty p) with (String "-" (pretty (Npos p))).
    cbn [PyInt.count_digits]. change (PyInt.digit_of "-") with (@None Z).
    by apply Hpos.
Qed.

(** [int(str(n))] is [n], up to the digit limit of [int]. *)
Lemma int_str (dec : N → option N) (n : Z) :
  Z.abs n < 10 ^ 4300 → PyInt.int dec (Py.str n) = Some n.
Proof.
  intros Hn. unfold PyInt.int.
  rewrite (plain_text_buffer dec _ (str_plain n)).
  pose proof (count_digits_str 4300 n ltac:(done) Hn) as Hdigits.
  unfold PyInt.max_str_digits.
  destruct (Z.ltb_spec 4300 (PyInt.count_digits (Py.str n))); [lia|].
  apply parse_ascii_str.
Qed.

(** [int] of the text of an integer never gives another integer. *)
Lemma int_str_inv (dec : N → option N) (n m : Z) :
  PyInt.int dec (Py.str n) = Some m → m = n.
Proof.
  unfold PyInt.int. rewrite (plain_text_buffer dec _ (str_plain n)).
  destruct (_ <? _); [done|]. rewrite parse_ascii_str. by intros [= ->].
Qed.

Lemma fits_int64_iff (z : Z) :
  fits_int64 z = true ↔ - 2 ^ 63 ≤ z ≤ 2 ^ 63 - 1.
Proof. unfold fits_int64. rewrite andb_true_iff, !Z.leb_le. done. Qed.

Lemma fits_int64_limit (z : Z) : fits_int64 z = true → Z.abs z < 10 ^ 4300.
Proof.
  intros H%fits_int64_iff.
  assert (2 ^ 63 < 10 ^ 19) as H19 by done.
  assert (10 ^ 19 ≤ 10 ^ 4300) as Hpow by (apply Z.pow_le_mono_r; lia).
  generalize dependent (10 ^ 4300). intros big Hbig. lia.
Qed.

Lemma form_of_str (dec : N → option N) (a b s : Z) :
  Z.abs a < 10 ^ 4300 → Z.abs b < 10 ^ 4300 → Z.abs s < 10 ^ 4300 →
  form_int dec (form_of (Py.str a) (Py.str b) (Py.str s)) "a" = Some a ∧
  form_int dec (form_of (Py.str a) (Py.str b) (Py.str s)) "b" = Some b ∧
  form_int dec (form_of (Py.str a) (Py.str b) (Py.str s)) "answer" = Some s.
Proof.
  intros Ha Hb Hs. unfold form_int, form_of. split_and!.
  - rewrite lookup_insert_eq. by apply int_str.
  - rewrite lookup_insert_ne by done. rewrite lookup_insert_eq.
    by apply int_str.
  - rewrite !lookup_insert_ne by done. rewrite lookup_insert_eq.
    by apply int_str.
Qed.
(** ** Runs of the handler *)

Lemma graph_add_all_run (g : Graph) (ts : list triple) (w : World) :
  graph_add_all g ts w =
    (Ok (mkGraph (namespaces g) (identifier g) (list_to_set ts ∪ triples g)),
     mkWorld (attempts w) (db_now w) (rowid_search w) (bnode_supply w)
       (stdout w)
       (trace w ++ map EvGraphAdd ts)).
Proof.
  revert g w. induction ts as [|t ts IH]; intros g w.
  - destruct g, w; unfold ret; cbn. rewrite app_nil_r.
    by rewrite (left_id_L ∅ (∪)).
  - cbn [graph_add_all]. unfold bind, graph_add. rewrite IH.
    destruct g, w; cbn. rewrite <- app_assoc. cbn.
    do 3 f_equal.
    by rewrite (comm_L (∪) {[t]} (list_to_set ts)), (assoc_L (∪)).
Qed.

Lemma annotate_run (ontology : Graph) (attempt_id a b s : Z) (w : World) :
  annotate ontology attempt_id a b s w =
    (Ok (attempt_graph ontology (bnode_supply w) attempt_id a b s),
     mkWorld (attempts w) (db_now w) (rowid_search w)
           (N.succ (bnode_supply w)) (stdout w)
       (trace w ++ [EvGraphNew; EvGraphBind "math" (ONTO_IRI ontology)]
          ++ map EvGraphAdd (attempt_triples ontology attempt_id a b s))).
Proof.
  unfold annotate, bind, Graph_, graph_bind. rewrite graph_add_all_run.
  unfold attempt_graph.
  cbn [attempts db_now rowid_search bnode_supply stdout trace log namespaces
       identifier triples].
  rewrite <- !app_assoc. by rewrite (right_id_L ∅ (∪)).
Qed.

Lemma form_int_run (dec : N → option N) (form : gmap string string)
    (key : string) (w : World) :
  bind (form_get form key) (int_ dec) w =
    match form !! key with
    | None => (Raise (BadRequestKeyError key), w)
    | Some v =>
        match PyInt.int dec v with
        | Some n => (Ok n, w)
        | None => (Raise ValueError, w)
        end
    end.
Proof.
  unfold bind, form_get, int_. destruct (form !! key) as [v|]; [|done].
  cbn. by destruct (PyInt.int dec v).
Qed.

(** The commit of a session that holds one object. *)
Lemma db_session_commit_one (new : NewAttempt) (w : World) :
  db_session_commit (mkSession [] new) w =
    if bindable new then
      match new_key (rowid_search w) (attempts w) with
      | Some key =>
          let row := insert_row key (db_now w) new in
          (Ok row,
           mkWorld (attempts w ++ [row]) (db_now w) (rowid_search w)
             (bnode_supply w) (stdout w) (trace w ++ [EvCommit row]))
      | None => (Raise OperationalError, w)
      end
    else (Raise OverflowError, w).
Proof.
  unfold db_session_commit, insert. cbn [earlier latest flush].
  destruct (bindable new); [|done].
  by destruct (new_key (rowid_search w) (attempts w)).
Qed.

Lemma new_key_next (search : list Z → option Z) (table : list Attempt.t) :
  fits_int64 (next_id table) = true →
  new_key search table = Some (next_id table).
Proof. unfold new_key. by intros ->. Qed.

(** A key given to a new row is positive, fits in 64 bits and is not in
    use; it is the next key unless that one does not fit. *)
Lemma new_key_Some (search : list Z → option Z) (table : list Attempt.t)
    (key : Z) :
  new_key search table = Some key →
  fits_int64 key = true ∧
  (fits_int64 (next_id table) = true → key = next_id table) ∧
  (fits_int64 (next_id table) = false →
   0 < key ∧ key ∉ Attempt.id <$> table).
Proof.
  unfold new_key. destruct (fits_int64 (next_id table)) eqn:Hfits.
  - intros [= <-]. by split_and!.
  - destruct (search _) as [k|]; [|done].
    destruct (0 <? k) eqn:Hpos; [|done].
    destruct (fits_int64 k) eqn:Hk; [|done].
    destruct (bool_decide (k ∈ Attempt.id <$> table)) eqn:Hin; [done|].
    cbn. intros [= <-]. split_and!; [done..|]. intros _. split.
    + by apply Z.ltb_lt.
    + by apply bool_decide_eq_false in Hin.
Qed.

(** Keys 1 and 2 in use: the next key is 3.  The largest key in use: the
    row goes where the search says, if that key is free. *)
Example new_key_examples :
  new_key no_key [row 1 5 10; row 2 5 10] = Some 3 ∧
  new_key no_key [row 9223372036854775807 5 10] = None ∧
  new_key (λ _, Some 7) [row 9223372036854775807 5 10] = Some 7 ∧
  new_key (λ _, Some 7) [row 7 5 10; row 9223372036854775807 5 10] = None.
Proof. by vm_compute. Qed.

(** A request that is given the key [key] for its row. *)
Lemma check_answer_run_key
    dec ontology serialize_turtle form uid w a b s key :
  form_int dec form "a" = Some a →
  form_int dec form "b" = Some b →
  form_int dec form "answer" = Some s →
  bindable (mkNew uid a b s (a + b) (s =? a + b)) = true →
  new_key (rowid_search w) (attempts w) = Some key →
  let new := mkNew uid a b s (a + b) (s =? a + b) in
  let row := insert_row key (db_now w) new in
  let g := attempt_graph ontology (bnode_supply w) (Attempt.id row) a b s in
  let steps := steps_to_serialize ontology new row in
  check_answer dec ontology serialize_turtle form uid w =
    match serialize_turtle g with
    | Ok ttl =>
        (Ok (payload (s =? a + b) a b (a + b)),
         mkWorld (attempts w ++ [row]) (db_now w) (rowid_search w)
           (N.succ (bnode_supply w))
           (stdout w ++ [header_line; ttl])
           (trace w ++ steps ++ [EvPrint ttl]))
    | Raise e =>
        (Raise e,
         mkWorld (attempts w ++ [row]) (db_now w) (rowid_search w)
           (N.succ (bnode_supply w))
           (stdout w ++ [header_line]) (trace w ++ steps))
    end.
Proof.
  intros Ha Hb Hs Hbind Hkey new row g steps. unfold form_int in Ha, Hb, Hs.
  fold new in Hbind.
  unfold check_answer.
  unfold bind at 1. rewrite form_int_run.
  destruct (form !! "a") as [va|]; [|done]. cbn in Ha. rewrite Ha.
  unfold bind at 1. rewrite form_int_run.
  destruct (form !! "b") as [vb|]; [|done]. cbn in Hb. rewrite Hb.
  unfold bind at 1. rewrite form_int_run.
  destruct (form !! "answer") as [vs|]; [|done]. cbn in Hs. rewrite Hs.
  unfold bind at 1. unfold db_session_add at 1.
  unfold bind at 1. rewrite db_session_commit_one. fold new.
  unfold log at 1 2.
  cbn [attempts db_now rowid_search bnode_supply stdout trace].
  rewrite Hbind, Hkey.
  unfold bind. rewrite annotate_run.
  cbn [log attempts db_now rowid_search bnode_supply stdout trace print].
  unfold print, graph_serialize.
  cbn [log attempts db_now rowid_search bnode_supply stdout trace].
  fold row. fold g.
  destruct (serialize_turtle g) as [ttl|e]; unfold ret;
    cbn [log attempts db_now rowid_search bnode_supply stdout trace].
  - unfold log; cbn [attempts db_now rowid_search bnode_supply stdout trace].
    unfold steps, steps_to_serialize, header_line.
    by rewrite <- !app_assoc.
  - unfold log; cbn [attempts db_now rowid_search bnode_supply stdout trace].
    unfold steps, steps_to_serialize, header_line.
    by rewrite <- !app_assoc.
Qed.

(** The usual case: the row is stored under the next key. *)
Lemma check_answer_run dec ontology serialize_turtle form uid w a b s :
  form_int dec form "a" = Some a →
  form_int dec form "b" = Some b →
  form_int dec form "answer" = Some s →
  storable (attempts w) uid a b s = true →
  let new := mkNew uid a b s (a + b) (s =? a + b) in
  let row := insert_row (next_id (attempts w)) (db_now w) new in
  let g := attempt_graph ontology (bnode_supply w) (Attempt.id row) a b s in
  let steps := steps_to_serialize ontology new row in
  check_answer dec ontology serialize_turtle form uid w =
    match serialize_turtle g with
    | Ok ttl =>
        (Ok (payload (s =? a + b) a b (a + b)),
         mkWorld (attempts w ++ [row]) (db_now w) (rowid_search w)
           (N.succ (bnode_supply w))
           (stdout w ++ [header_line; ttl])
           (trace w ++ steps ++ [EvPrint ttl]))
    | Raise e =>
        (Raise e,
         mkWorld (attempts w ++ [row]) (db_now w) (rowid_search w)
           (N.succ (bnode_supply w))
           (stdout w ++ [header_line]) (trace w ++ steps))
    end.
Proof.
  intros Ha Hb Hs Hst. apply andb_true_iff in Hst as [Hbind Hkey].
  apply check_answer_run_key; [done..|]. by apply new_key_next.
Qed.

(** A request whose row is not given to the database stops at the commit:
    with [OverflowError] when an integer does not fit, with
    [OperationalError] when no key is found. *)
Lemma check_answer_refused dec ontology serialize_turtle form uid w a b s :
  form_int dec form "a" = Some a →
  form_int dec form "b" = Some b →
  form_int dec form "answer" = Some s →
  let new := mkNew uid a b s (a + b) (s =? a + b) in
  bindable new = false
    ∨ new_key (rowid_search w) (attempts w) = None →
  check_answer dec ontology serialize_turtle form uid w =
    (Raise (if bindable new then OperationalError else OverflowError),
     mkWorld (attempts w) (db_now w) (rowid_search w) (bnode_supply w)
       (stdout w) (trace w ++ [EvSessionAdd new])).
Proof.
  intros Ha Hb Hs new Hno. unfold form_int in Ha, Hb, Hs.
  unfold check_answer.
  unfold bind at 1. rewrite form_int_run.
  destruct (form !! "a") as [va|]; [|done]. cbn in Ha. rewrite Ha.
  unfold bind at 1. rewrite form_int_run.
  destruct (form !! "b") as [vb|]; [|done]. cbn in Hb. rewrite Hb.
  unfold bind at 1. rewrite form_int_run.
  destruct (form !! "answer") as [vs|]; [|done]. cbn in Hs. rewrite Hs.
  unfold bind at 1. unfold db_session_add at 1.
  unfold bind at 1. rewrite db_session_commit_one. fold new.
  unfold log at 1 2.
  cbn [attempts db_now rowid_search bnode_supply stdout trace].
  destruct (bindable new); [|done].
  destruct Hno as [? | ->]; done.
Qed.
(** ** Instance names *)

Lemma pretty_N_go_no_underscore (x : N) (s : string) :
  no_underscore s → no_underscore (pretty_N_go x s).
Proof.
  revert s. induction (N.lt_wf_0 x) as [x _ IH]; intros s Hs.
  destruct (decide (x = 0)%N) as [->|Hx]; [done|].
  rewrite pretty_N_go_step by lia.
  apply IH; [apply N.div_lt; lia|].
  split; [|done]. unfold pretty_N_char. by repeat case_match.
Qed.

Lemma str_no_underscore (n : Z) : no_underscore (Py.str n).
Proof.
  assert (∀ x : N, no_underscore (pretty x)) as HN.
  { intros x. unfold pretty, pretty_N. case_decide; [by split|].
    by apply pretty_N_go_no_underscore. }
  destruct n as [|p|p]; unfold Py.str, pretty, pretty_Z; [by split| |].
  - apply HN.
  - split; [done|]. apply HN.
Qed.

Lemma split_at_underscore (s1 s2 t1 t2 : string) :
  no_underscore s1 → no_underscore s2 →
  s1 +:+ String "_" t1 = s2 +:+ String "_" t2 → s1 = s2 ∧ t1 = t2.
Proof.
  revert s2. induction s1 as [|c s1 IH]; intros [|c2 s2] H1 H2 Heq.
  - by injection Heq as ->.
  - injection Heq as <- _. by destruct H2.
  - injection Heq as -> _. by destruct H1.
  - injection Heq as -> Heq. destruct H1 as [_ H1], H2 as [_ H2].
    by destruct (IH s2 H1 H2 Heq) as [-> ->].
Qed.

Lemma expr_iri_inj (ontology : Graph) (i j : Z) :
  expr_iri ontology i = expr_iri ontology j → i = j.
Proof.
  unfold expr_iri, MATH, Namespace. intros [= H].
  apply (inj (String.app _)) in H. apply (inj (String.app _)) in H.
  by apply (inj pretty) in H.
Qed.

Lemma num_iri_inj (ontology : Graph) (v v' i j : Z) :
  num_iri ontology v i = num_iri ontology v' j → v = v' ∧ i = j.
Proof.
  unfold num_iri, MATH, Namespace. intros [= H].
  apply (inj (String.app _)) in H. apply (inj (String.app _)) in H.
  apply (split_at_underscore _ _ (Py.str i) (Py.str j)) in H as [Hv Hi];
    try apply str_no_underscore.
  split; by apply (inj pretty).
Qed.

Lemma expr_iri_ne_num_iri (ontology : Graph) (i v j : Z) :
  expr_iri ontology i ≠ num_iri ontology v j.
Proof.
  unfold expr_iri, num_iri, MATH, Namespace. intros [= H].
  by apply (inj (String.app _)) in H.
Qed.

Lemma next_id_fresh (table : list Attempt.t) (r : Attempt.t) :
  r ∈ table → Attempt.id r < next_id table.
Proof.
  unfold next_id. induction 1 as [r l|r r' l _ IH]; simpl; lia.
Qed.

(** ** Ordering of the dashboard listing *)

Lemma insert_desc_perm (x : Attempt.t) (l : list Attempt.t) :
  insert_desc x l ≡ₚ x :: l.
Proof.
  induction l as [|y l IH]; [done|]. simpl.
  destruct (Attempt.timestamp y <=? Attempt.timestamp x); [done|].
  rewrite IH. apply Permutation_swap.
Qed.

Lemma order_by_timestamp_desc_perm (rows : list Attempt.t) :
  order_by_timestamp_desc rows ≡ₚ rows.
Proof.
  induction rows as [|x rows IH]; [done|]. simpl.
  by rewrite insert_desc_perm, IH.
Qed.

Lemma insert_desc_sorted (x : Attempt.t) (l : list Attempt.t) :
  StronglySorted timestamp_desc l →
  StronglySorted timestamp_desc (insert_desc x l).
Proof.
  induction 1 as [|y l Hl IH Hy]; simpl.
  - repeat constructor.
  - destruct (Z.leb_spec (Attempt.timestamp y) (Attempt.timestamp x))
      as [Hle|Hlt].
    + constructor; [by constructor|].
      constructor; [done|].
      eapply Forall_impl; [exact Hy|].
      unfold timestamp_desc. intros z Hz. lia.
    + constructor; [done|].
      rewrite insert_desc_perm. constructor; [|done].
      unfold timestamp_desc. lia.
Qed.

Lemma order_by_timestamp_desc_sorted (rows : list Attempt.t) :
  StronglySorted timestamp_desc (order_by_timestamp_desc rows).
Proof.
  induction rows as [|x rows IH]; simpl; [constructor|].
  by apply insert_desc_sorted.
Qed.

Lemma StronglySorted_take_drop {A} (R : relation A) (n m : nat) (l : list A) :
  StronglySorted R l → StronglySorted R (take n (drop m l)).
Proof.
  intros H. rewrite <- (take_drop m l) in H.
  apply StronglySorted_app_1_r in H.
  rewrite <- (take_drop n (drop m l)) in H.
  by apply StronglySorted_app_1_l in H.
Qed.

Lemma elem_of_filter_by_user_id
    (uid : Z) (rows : list Attempt.t) (r : Attempt.t) :
  r ∈ filter_by_user_id uid rows ↔ r ∈ rows ∧ Attempt.user_id r = uid.
Proof.
  unfold filter_by_user_id. rewrite !list_elem_of_In, filter_In.
  by rewrite Z.eqb_eq.
Qed.

Lemma distinct_timestamps_strict (l : list Attempt.t) :
  StronglySorted timestamp_desc l →
  NoDup (Attempt.timestamp <$> l) →
  StronglySorted spec_newest_first l.
Proof.
  induction 1 as [|x l Hl IH Hx]; intros Hnd; [constructor|].
  rewrite fmap_cons in Hnd. apply NoDup_cons in Hnd as [Hx' Hnd].
  constructor; [by apply IH|].
  rewrite Forall_forall in Hx |- *. intros y Hy. left.
  assert (Attempt.timestamp y ≠ Attempt.timestamp x).
  { intros Heq. apply Hx'. rewrite <- Heq. by apply list_elem_of_fmap_2. }
  specialize (Hx y Hy). unfold timestamp_desc in Hx. lia.
Qed.

(** ** Outcomes of a request *)

Lemma eqb_bool_decide (x y : Z) : (x =? y) = bool_decide (x = y).
Proof.
  destruct (Z.eqb_spec x y).
  - by rewrite bool_decide_eq_true_2.
  - by rewrite bool_decide_eq_false_2.
Qed.

Lemma payload_lookups (ic : bool) (a b c : Z) :
  payload ic a b c !! "correct" = Some (JBool ic) ∧
  payload ic a b c !! "answer" = Some (JInt c) ∧
  payload ic a b c !! "message" = Some (JStr (message ic a b c)) ∧
  ∀ k, k ≠ "correct" → k ≠ "answer" → k ≠ "message" →
       payload ic a b c !! k = None.
Proof.
  unfold payload. split_and!.
  - by rewrite lookup_insert_eq.
  - rewrite lookup_insert_ne by done. by rewrite lookup_insert_eq.
  - rewrite !lookup_insert_ne by done. by rewrite lookup_insert_eq.
  - intros k H1 H2 H3. by rewrite !lookup_insert_ne.
Qed.

Lemma form_int_run_some dec form key n w :
  form_int dec form key = Some n →
  bind (form_get form key) (int_ dec) w = (Ok n, w).
Proof.
  unfold form_int. rewrite form_int_run.
  destruct (form !! key) as [v|]; [|done]. cbn. by intros ->.
Qed.

Lemma form_int_run_none dec form key w :
  form_int dec form key = None →
  ∃ e, bind (form_get form key) (int_ dec) w = (Raise e, w).
Proof.
  unfold form_int. rewrite form_int_run.
  destruct (form !! key) as [v|]; [|by eexists]. cbn. intros ->. by eexists.
Qed.

Lemma check_answer_rejected dec ontology serialize_turtle form uid w :
  form_int dec form "a" = None ∨ form_int dec form "b" = None
    ∨ form_int dec form "answer" = None →
  ∃ e, check_answer dec ontology serialize_turtle form uid w = (Raise e, w).
Proof.
  intros H. unfold check_answer. unfold bind at 1.
  destruct (form_int dec form "a") as [a|] eqn:Ha.
  2:{ destruct (form_int_run_none _ _ _ w Ha) as [e ->]. by exists e. }
  rewrite (form_int_run_some _ _ _ _ w Ha). unfold bind at 1.
  destruct (form_int dec form "b") as [b|] eqn:Hb.
  2:{ destruct (form_int_run_none _ _ _ w Hb) as [e ->]. by exists e. }
  rewrite (form_int_run_some _ _ _ _ w Hb). unfold bind at 1.
  destruct (form_int dec form "answer") as [s|] eqn:Hs.
  2:{ destruct (form_int_run_none _ _ _ w Hs) as [e ->]. by exists e. }
  by destruct H as [?|[?|?]].
Qed.

(** The ways a request can go: a field is rejected; the commit fails; the
    row is stored under some key. *)
Lemma check_answer_cases dec ontology serialize_turtle form uid w :
  (∃ e, check_answer dec ontology serialize_turtle form uid w = (Raise e, w)
        ∧ (form_int dec form "a" = None ∨ form_int dec form "b" = None
           ∨ form_int dec form "answer" = None)) ∨
  ∃ a b s,
    form_int dec form "a" = Some a ∧ form_int dec form "b" = Some b ∧
    form_int dec form "answer" = Some s ∧
    (((bindable (mkNew uid a b s (a + b) (s =? a + b)) = false
       ∨ new_key (rowid_search w) (attempts w) = None) ∧
      check_answer dec ontology serialize_turtle form uid w =
        (Raise (if bindable (mkNew uid a b s (a + b) (s =? a + b))
                then OperationalError else OverflowError),
         mkWorld (attempts w) (db_now w) (rowid_search w) (bnode_supply w)
           (stdout w)
           (trace w ++ [EvSessionAdd (mkNew uid a b s (a + b) (s =? a + b))])))
     ∨
     (∃ key,
        bindable (mkNew uid a b s (a + b) (s =? a + b)) = true ∧
        new_key (rowid_search w) (attempts w) = Some key ∧
        attempts (check_answer dec ontology serialize_turtle form uid w).2
          = attempts w ++
              [Attempt.mk key uid a b s (a + b) (s =? a + b) (db_now w)])).
Proof.
  destruct (form_int dec form "a") as [a|] eqn:Ha;
    [destruct (form_int dec form "b") as [b|] eqn:Hb;
      [destruct (form_int dec form "answer") as [s|] eqn:Hs|]|].
  2-4: left;
       destruct (check_answer_rejected dec ontology serialize_turtle form
                   uid w) as [e He]; [by auto|]; exists e; by auto.
  right. exists a, b, s. split_and!; try done.
  destruct (bindable (mkNew uid a b s (a + b) (s =? a + b))) eqn:Hbind.
  - destruct (new_key (rowid_search w) (attempts w)) as [key|] eqn:Hkey.
    + right. exists key. split_and!; [done..|].
      rewrite (check_answer_run_key _ _ _ _ _ _ a b s key Ha Hb Hs Hbind Hkey).
      by destruct (serialize_turtle _).
    + left. split; [by right|].
      rewrite (check_answer_refused _ _ _ _ _ _ a b s Ha Hb Hs); [|by right].
      by rewrite Hbind.
  - left. split; [by left|].
    rewrite (check_answer_refused _ _ _ _ _ _ a b s Ha Hb Hs); [|by left].
    by rewrite Hbind.
Qed.

Lemma storable_true_iff (table : list Attempt.t) (uid a b s : Z) :
  storable table uid a b s = true ↔
  fits_int64 uid = true ∧ fits_int64 a = true ∧ fits_int64 b = true ∧
  fits_int64 s = true ∧ fits_int64 (a + b) = true ∧
  fits_int64 (next_id table) = true.
Proof.
  unfold storable, bindable. cbn. rewrite !andb_true_iff. tauto.
Qed.
(** ** Evaluation and persistence *)

(** C1. For all integers a, b, s submitted in a request, the handler
    computes correct = a + b and is_correct = (s == correct): the Attempt
    object it hands to the session carries them, and so does the row
    persisted for the request, which is appended after the rows already
    there; those are left as they were.  The row is persisted, under the
    next key, when the integers and that key fit in 64 bits; it is not
    when an integer does not fit: the commit then raises OverflowError.  A
    returned payload carries the same two values, and the row is then in
    the table. *)
Theorem check_answer_stores_sum
    dec ontology serialize_turtle form uid w a b s :
  form_int dec form "a" = Some a →
  form_int dec form "b" = Some b →
  form_int dec form "answer" = Some s →
  (∃ later,
     trace (check_answer dec ontology serialize_turtle form uid w).2
     = trace w ++
         EvSessionAdd (mkNew uid a b s (a + b) (bool_decide (s = a + b)))
         :: later) ∧
  (attempts (check_answer dec ontology serialize_turtle form uid w).2
     = attempts w ∨
   ∃ key,
     attempts (check_answer dec ontology serialize_turtle form uid w).2
     = attempts w ++
         [Attempt.mk key uid a b s (a + b) (bool_decide (s = a + b))
            (db_now w)]) ∧
  (storable (attempts w) uid a b s = true →
   attempts (check_answer dec ontology serialize_turtle form uid w).2
   = attempts w ++
       [Attempt.mk (next_id (attempts w)) uid a b s (a + b)
          (bool_decide (s = a + b)) (db_now w)]) ∧
  (bindable (mkNew uid a b s (a + b) (bool_decide (s = a + b))) = false →
   attempts (check_answer dec ontology serialize_turtle form uid w).2
     = attempts w ∧
   (check_answer dec ontology serialize_turtle form uid w).1
     = Raise OverflowError) ∧
  ∀ p, (check_answer dec ontology serialize_turtle form uid w).1 = Ok p →
    p !! "answer" = Some (JInt (a + b)) ∧
    p !! "correct" = Some (JBool (bool_decide (s = a + b))) ∧
    ∃ key,
      attempts (check_answer dec ontology serialize_turtle form uid w).2
      = attempts w ++
          [Attempt.mk key uid a b s (a + b) (bool_decide (s = a + b))
             (db_now w)].
Proof.
  intros Ha Hb Hs. rewrite <- eqb_bool_decide.
  assert (storable (attempts w) uid a b s = true →
          attempts (check_answer dec ontology serialize_turtle form uid w).2
          = attempts w ++
              [Attempt.mk (next_id (attempts w)) uid a b s (a + b)
                 (s =? a + b) (db_now w)]) as Hnext.
  { intros Hst. rewrite (check_answer_run _ _ _ _ _ _ a b s Ha Hb Hs Hst).
    by destruct (serialize_turtle _). }
  destruct (bindable (mkNew uid a b s (a + b) (s =? a + b))) eqn:Hbind;
    [destruct (new_key (rowid_search w) (attempts w)) as [key|] eqn:Hkey|].
  - rewrite (check_answer_run_key _ _ _ _ _ _ a b s key Ha Hb Hs Hbind Hkey)
      in Hnext |- *.
    split_and!.
    + destruct (serialize_turtle _); eexists; cbn [snd trace];
        unfold steps_to_serialize; cbn [app]; reflexivity.
    + right. exists key. by destruct (serialize_turtle _).
    + done.
    + done.
    + intros p Hp. destruct (serialize_turtle _); [|done].
      injection Hp as <-.
      destruct (payload_lookups (s =? a + b) a b (a + b)) as (-> & -> & _).
      split_and!; [done..|]. by exists key.
  - rewrite (check_answer_refused _ _ _ _ _ _ a b s Ha Hb Hs
               (or_intror Hkey)) in Hnext |- *.
    rewrite Hbind.
    split_and!; [by exists []|by left|done|done|done].
  - rewrite (check_answer_refused _ _ _ _ _ _ a b s Ha Hb Hs
               (or_introl Hbind)) in Hnext |- *.
    rewrite Hbind.
    split_and!; [by exists []|by left|done|done|done].
Qed.

(** An instance: the request a=3, b=4, answer=7 on an empty table. *)
Lemma check_answer_stores_sum_witness :
  (∃ later,
     trace (check_answer unicode_14 empty_graph serializer_ok
              (form_of "3" "4" "7") 1 world0).2
     = trace world0 ++
         EvSessionAdd (mkNew 1 3 4 7 (3 + 4) (bool_decide (7 = 3 + 4)))
         :: later) ∧
  (attempts (check_answer unicode_14 empty_graph serializer_ok
               (form_of "3" "4" "7") 1 world0).2
     = attempts world0 ∨
   ∃ key,
     attempts (check_answer unicode_14 empty_graph serializer_ok
                 (form_of "3" "4" "7") 1 world0).2
     = attempts world0 ++
         [Attempt.mk key 1 3 4 7 (3 + 4) (bool_decide (7 = 3 + 4))
            (db_now world0)]) ∧
  (storable (attempts world0) 1 3 4 7 = true →
   attempts (check_answer unicode_14 empty_graph serializer_ok
               (form_of "3" "4" "7") 1 world0).2
   = attempts world0 ++
       [Attempt.mk (next_id (attempts world0)) 1 3 4 7 (3 + 4)
          (bool_decide (7 = 3 + 4)) (db_now world0)]) ∧
  (bindable (mkNew 1 3 4 7 (3 + 4) (bool_decide (7 = 3 + 4))) = false →
   attempts (check_answer unicode_14 empty_graph serializer_ok
               (form_of "3" "4" "7") 1 world0).2
     = attempts world0 ∧
   (check_answer unicode_14 empty_graph serializer_ok
      (form_of "3" "4" "7") 1 world0).1 = Raise OverflowError) ∧
  ∀ p, (check_answer unicode_14 empty_graph serializer_ok
          (form_of "3" "4" "7") 1 world0).1 = Ok p →
    p !! "answer" = Some (JInt (3 + 4)) ∧
    p !! "correct" = Some (JBool (bool_decide (7 = 3 + 4))) ∧
    ∃ key,
      attempts (check_answer unicode_14 empty_graph serializer_ok
                  (form_of "3" "4" "7") 1 world0).2
      = attempts world0 ++
          [Attempt.mk key 1 3 4 7 (3 + 4) (bool_decide (7 = 3 + 4))
             (db_now world0)].
Proof.
  apply (check_answer_stores_sum unicode_14 empty_graph serializer_ok
           (form_of "3" "4" "7") 1 world0 3 4 7); reflexivity.
Defined.

(** ** The result payload *)

(** The payload of the request a=3, b=4, answer=7 has no key "is_correct",
    and its key "correct" holds the boolean, not the integer 7: it does not
    have the shape [{is_correct: bool, correct: int, message: string}]. *)
Lemma spec_payload_shape_fails :
  ∃ p, (check_answer unicode_14 empty_graph serializer_ok
          (form_of "3" "4" "7") 1 world0).1 = Ok p ∧
       p !! "is_correct" = None ∧
       p !! "correct" = Some (JBool true) ∧
       ¬ spec_payload_shape p.
Proof.
  rewrite (check_answer_run unicode_14 empty_graph serializer_ok
             (form_of "3" "4" "7") 1 world0 3 4 7
             eq_refl eq_refl eq_refl eq_refl).
  eexists. split; [reflexivity|].
  destruct (payload_lookups (7 =? 3 + 4) 3 4 (3 + 4)) as (Hc & _ & _ & Hk).
  split_and!.
  - by apply Hk.
  - done.
  - intros (ic & c & m & H & _). by rewrite Hk in H.
Qed.

(** C2 (amended). Every payload check-answer returns has exactly the keys
    "correct" (boolean: whether s = a + b), "answer" (integer: a + b) and
    "message" (string), for the integers a, b, s read from the form.  For
    a=3, b=4: answer 7 gives correct: true, answer: 7; answer 8 gives
    correct: false, answer: 7.  A payload is returned whenever the fields
    are numeric, the row can be stored and the annotation serializes. *)
Theorem check_answer_payload dec ontology serialize_turtle form uid w :
  (∀ p, (check_answer dec ontology serialize_turtle form uid w).1 = Ok p →
     ∃ a b s m,
       form_int dec form "a" = Some a ∧ form_int dec form "b" = Some b ∧
       form_int dec form "answer" = Some s ∧
       p !! "correct" = Some (JBool (bool_decide (s = a + b))) ∧
       p !! "answer" = Some (JInt (a + b)) ∧
       p !! "message" = Some (JStr m) ∧
       (∀ k, k ≠ "correct" → k ≠ "answer" → k ≠ "message" →
             p !! k = None) ∧
       (a = 3 → b = 4 → s = 7 →
          p !! "correct" = Some (JBool true) ∧
          p !! "answer" = Some (JInt 7)) ∧
       (a = 3 → b = 4 → s = 8 →
          p !! "correct" = Some (JBool false) ∧
          p !! "answer" = Some (JInt 7))) ∧
  (∀ a b s ttl,
     form_int dec form "a" = Some a → form_int dec form "b" = Some b →
     form_int dec form "answer" = Some s →
     storable (attempts w) uid a b s = true →
     serialize_turtle
       (attempt_graph ontology (bnode_supply w) (next_id (attempts w)) a b s)
       = Ok ttl →
     ∃ p, (check_answer dec ontology serialize_turtle form uid w).1 = Ok p).
Proof.
  split.
  - intros p Hp.
    destruct (form_int dec form "a") as [a|] eqn:Ha;
      [destruct (form_int dec form "b") as [b|] eqn:Hb;
        [destruct (form_int dec form "answer") as [s|] eqn:Hs|]|].
    2-4: destruct (check_answer_rejected dec ontology serialize_turtle form
                     uid w) as [e He]; [by auto|]; by rewrite He in Hp.
    destruct (bindable (mkNew uid a b s (a + b) (s =? a + b))) eqn:Hbind;
      [destruct (new_key (rowid_search w) (attempts w)) as [key|] eqn:Hkey|].
    2:{ rewrite (check_answer_refused _ _ _ _ _ _ a b s Ha Hb Hs) in Hp;
          [done|by right]. }
    2:{ rewrite (check_answer_refused _ _ _ _ _ _ a b s Ha Hb Hs) in Hp;
          [done|by left]. }
    rewrite (check_answer_run_key _ _ _ _ _ _ a b s key Ha Hb Hs Hbind Hkey)
      in Hp.
    destruct (serialize_turtle _); [|done]. injection Hp as <-.
    destruct (payload_lookups (s =? a + b) a b (a + b))
      as (Hc & Hans & Hm & Hk).
    exists a, b, s, (message (s =? a + b) a b (a + b)).
    rewrite <- eqb_bool_decide. split_and!; try done.
    + by intros -> -> ->.
    + by intros -> -> ->.
  - intros a b s ttl Ha Hb Hs Hst Httl.
    rewrite (check_answer_run _ _ _ _ _ _ a b s Ha Hb Hs Hst).
    cbn [insert_row Attempt.id]. rewrite Httl. by eexists.
Qed.
(** ** Instance names *)

(** With a = b = 2 the two operand names coincide: the four names of one
    attempt are not pairwise distinct. *)
Lemma attempt_iris_not_distinct :
  ¬ NoDup (attempt_iris empty_graph 1 2 2 4).
Proof.
  unfold attempt_iris. rewrite !NoDup_cons. intros (_ & H & _).
  apply H. left.
Qed.

(** C3 (amended). Names minted for attempts with different identifiers
    never coincide; within one attempt the expression name differs from
    every number name, and two number names coincide exactly when their
    values are equal.  The identifier given to a new row differs from the
    identifier of every row already in the table. *)
Theorem attempt_iris_scoped_by_id (ontology : Graph) :
  (∀ id a b s id' a' b' s' x,
     x ∈ attempt_iris ontology id a b s →
     x ∈ attempt_iris ontology id' a' b' s' → id = id') ∧
  (∀ id v, expr_iri ontology id ≠ num_iri ontology v id) ∧
  (∀ id v v', num_iri ontology v id = num_iri ontology v' id ↔ v = v') ∧
  (∀ table r, r ∈ table → Attempt.id r ≠ next_id table).
Proof.
  split_and!.
  - intros id a b s id' a' b' s' x Hx Hx'. unfold attempt_iris in *.
    repeat (apply elem_of_cons in Hx as [->|Hx]);
      try (by apply elem_of_nil in Hx);
      repeat (apply elem_of_cons in Hx' as [Hx'|Hx']);
      try (by apply elem_of_nil in Hx');
      first [ by apply expr_iri_inj in Hx'
            | by apply num_iri_inj in Hx' as [_ ?]
            | by apply expr_iri_ne_num_iri in Hx'
            | by symmetry in Hx'; apply expr_iri_ne_num_iri in Hx' ].
  - intros id v. apply expr_iri_ne_num_iri.
  - intros id v v'. split; [|by intros ->].
    intros H. by apply num_iri_inj in H as [? _].
  - intros table r Hr. apply next_id_fresh in Hr. lia.
Qed.

(** ** The dashboard listing *)

(** Two attempts of one user committed within the same second get the same
    timestamp and the identifiers 1 and 2; they are listed as [1; 2]: the
    tie is not broken by identifier descending. *)
Lemma dashboard_ties_in_scan_order :
  attempts world_after_two_attempts
    = [Attempt.mk 1 5 3 4 7 7 true 1000; Attempt.mk 2 5 2 2 4 4 true 1000] ∧
  ∃ p, dashboard unicode_14 None 5 world_after_two_attempts = Ok p ∧
       Attempt.id <$> items p = [1; 2] ∧
       ¬ StronglySorted spec_newest_first (items p).
Proof.
  assert (attempts world_after_two_attempts
          = [Attempt.mk 1 5 3 4 7 7 true 1000;
             Attempt.mk 2 5 2 2 4 4 true 1000]) as Hw.
  { unfold world_after_two_attempts.
    rewrite (check_answer_run unicode_14 empty_graph serializer_ok
               (form_of "3" "4" "7") 5 world0 3 4 7
               eq_refl eq_refl eq_refl eq_refl).
    cbn [serializer_ok snd].
    by rewrite (check_answer_run unicode_14 empty_graph serializer_ok
                  (form_of "2" "2" "4") 5 _ 2 2 4 eq_refl eq_refl eq_refl)
      by reflexivity. }
  split; [done|]. unfold dashboard. rewrite Hw.
  eexists. split; [reflexivity|]. split; [reflexivity|].
  intros H. apply StronglySorted_inv in H as [_ H].
  apply Forall_cons in H as [[H|[_ H]] _]; cbn in H; lia.
Qed.

(** What [paginate] returns. *)
Lemma paginate_Ok (k pp : Z) (rows : list Attempt.t) (p : Pagination) :
  paginate k pp rows = Ok p →
  fits_int64 ((Z.max 1 k - 1) * pp) = true ∧
  p = mkPagination
        (take (Z.to_nat pp) (drop (Z.to_nat ((Z.max 1 k - 1) * pp)) rows))
        (Z.max 1 k) pp (Z.of_nat (length rows)).
Proof.
  unfold paginate.
  replace (if k <? 1 then 1 else k) with (Z.max 1 k)
    by (destruct (Z.ltb_spec k 1); lia).
  destruct (fits_int64 _); [|done]. by intros [= <-].
Qed.

Lemma paginate_fits (k pp : Z) (rows : list Attempt.t) :
  fits_int64 ((Z.max 1 k - 1) * pp) = true →
  paginate k pp rows
  = Ok (mkPagination
          (take (Z.to_nat pp) (drop (Z.to_nat ((Z.max 1 k - 1) * pp)) rows))
          (Z.max 1 k) pp (Z.of_nat (length rows))).
Proof.
  intros Hfits. unfold paginate.
  replace (if k <? 1 then 1 else k) with (Z.max 1 k)
    by (destruct (Z.ltb_spec k 1); lia).
  by rewrite Hfits.
Qed.

Lemma paginate_overflow (k pp : Z) (rows : list Attempt.t) :
  fits_int64 ((Z.max 1 k - 1) * pp) = false →
  paginate k pp rows = Raise OverflowError.
Proof.
  intros Hfits. unfold paginate.
  replace (if k <? 1 then 1 else k) with (Z.max 1 k)
    by (destruct (Z.ltb_spec k 1); lia).
  by rewrite Hfits.
Qed.

(** C4 (amended). For every user and page, a dashboard page that is served
    holds ten of that user's attempts taken, at the offset of the requested
    page, from the listing ordered by creation timestamp descending; when no
    two of the user's attempts share a timestamp this is the strict
    newest-first order of the specification.  A page is served unless its
    offset exceeds 64 bits.  Attempts inserted with timestamps t1 < t2 < t3
    and identifiers 1, 2, 3 are listed as [3; 2; 1]. *)
Theorem dashboard_timestamp_desc
    (dec : N → option N) (arg : option string) (uid : Z) (w : World) :
  ∃ listing,
    listing ≡ₚ filter_by_user_id uid (attempts w) ∧
    (∀ r, r ∈ listing ↔ r ∈ attempts w ∧ Attempt.user_id r = uid) ∧
    StronglySorted timestamp_desc listing ∧
    (∀ p, dashboard dec arg uid w = Ok p →
       page p = Z.max 1 (page_arg dec arg) ∧
       items p = take 10 (drop (Z.to_nat ((page p - 1) * 10)) listing) ∧
       StronglySorted timestamp_desc (items p) ∧
       (NoDup (Attempt.timestamp <$> listing) →
          StronglySorted spec_newest_first (items p))) ∧
    (fits_int64 ((Z.max 1 (page_arg dec arg) - 1) * 10) = true →
       ∃ p, dashboard dec arg uid w = Ok p) ∧
    (∀ t1 t2 t3, t1 < t2 < t3 →
       ∃ p, dashboard dec None uid
              (mkWorld [row 1 uid t1; row 2 uid t2; row 3 uid t3] 0 no_key 0
                 [] [])
            = Ok p ∧
            Attempt.id <$> items p = [3; 2; 1]).
Proof.
  exists (order_by_timestamp_desc (filter_by_user_id uid (attempts w))).
  pose proof (order_by_timestamp_desc_sorted
                (filter_by_user_id uid (attempts w))) as Hsorted.
  split_and!.
  - apply order_by_timestamp_desc_perm.
  - intros r. rewrite order_by_timestamp_desc_perm.
    apply elem_of_filter_by_user_id.
  - done.
  - intros p Hp. unfold dashboard in Hp.
    apply paginate_Ok in Hp as [_ ->]. cbn [page items]. split_and!.
    + done.
    + done.
    + by apply StronglySorted_take_drop.
    + intros Hnd. apply StronglySorted_take_drop.
      by apply distinct_timestamps_strict.
  - intros Hfits. unfold dashboard. rewrite paginate_fits by done.
    by eexists.
  - intros t1 t2 t3 [H12 H23]. eexists. split; [reflexivity|].
    unfold filter_by_user_id, row.
    cbn [attempts List.filter Attempt.user_id items].
    rewrite Z.eqb_refl.
    cbn [order_by_timestamp_desc foldr insert_desc Attempt.timestamp].
    destruct (Z.leb_spec t3 t2); [lia|]. cbn [insert_desc Attempt.timestamp].
    destruct (Z.leb_spec t3 t1); [lia|]. cbn [insert_desc Attempt.timestamp].
    destruct (Z.leb_spec t2 t1); [lia|]. reflexivity.
Qed.

(** ** Failure of the annotation *)

(** With a serializer that fails, the request a=3, b=4, answer=7 ends in the
    serializer's exception: no payload is returned. *)
Lemma annotation_failure_propagates :
  (check_answer unicode_14 empty_graph serializer_failing
     (form_of "3" "4" "7") 1 world0).1 = Raise AnnotationError ∧
  ¬ ∃ p, (check_answer unicode_14 empty_graph serializer_failing
            (form_of "3" "4" "7") 1 world0).1 = Ok p.
Proof.
  rewrite (check_answer_run unicode_14 empty_graph serializer_failing
             (form_of "3" "4" "7") 1 world0 3 4 7
             eq_refl eq_refl eq_refl eq_refl).
  split; [reflexivity|]. by intros [p Hp].
Qed.

(** C5 (amended). When the row of a request has been committed and the
    serializer then fails on the graph of the request, the handler does not
    catch the failure: the request ends in that exception and returns no
    payload.  The attempt committed before the annotation stays in the
    table, and only the header line has been printed. *)
Theorem annotation_failure_keeps_attempt
    dec ontology serialize_turtle form uid w a b s key e :
  form_int dec form "a" = Some a →
  form_int dec form "b" = Some b →
  form_int dec form "answer" = Some s →
  bindable (mkNew uid a b s (a + b) (s =? a + b)) = true →
  new_key (rowid_search w) (attempts w) = Some key →
  serialize_turtle (attempt_graph ontology (bnode_supply w) key a b s)
    = Raise e →
  (check_answer dec ontology serialize_turtle form uid w).1 = Raise e ∧
  attempts (check_answer dec ontology serialize_turtle form uid w).2
    = attempts w ++
        [Attempt.mk key uid a b s (a + b) (s =? a + b) (db_now w)] ∧
  stdout (check_answer dec ontology serialize_turtle form uid w).2
    = stdout w ++ [header_line].
Proof.
  intros Ha Hb Hs Hbind Hkey He.
  rewrite (check_answer_run_key _ _ _ _ _ _ a b s key Ha Hb Hs Hbind Hkey).
  cbn [insert_row Attempt.id]. by rewrite He.
Qed.

(** An instance: the failing serializer on a=3, b=4, answer=7. *)
Lemma annotation_failure_keeps_attempt_witness :
  (check_answer unicode_14 empty_graph serializer_failing
     (form_of "3" "4" "7") 1 world0).1 = Raise AnnotationError ∧
  attempts (check_answer unicode_14 empty_graph serializer_failing
              (form_of "3" "4" "7") 1 world0).2
    = attempts world0 ++
        [Attempt.mk 1 1 3 4 7 (3 + 4) (7 =? 3 + 4) (db_now world0)] ∧
  stdout (check_answer unicode_14 empty_graph serializer_failing
            (form_of "3" "4" "7") 1 world0).2
    = stdout world0 ++ [header_line].
Proof.
  apply (annotation_failure_keeps_attempt unicode_14 empty_graph
           serializer_failing (form_of "3" "4" "7") 1 world0 3 4 7 1
           AnnotationError); reflexivity.
Defined.

(** ** Order of persistence and annotation *)

(** C6. In every run of the handler, each annotation step (graph
    construction, binding, triple assertion, serialization) comes after the
    commit of the attempt row, and that row is in the table at the end of
    the run.  A run that stops at a form field takes no step at all. *)
Theorem commit_precedes_annotation
    dec ontology serialize_turtle form uid w :
  ∃ steps,
    trace (check_answer dec ontology serialize_turtle form uid w).2
      = trace w ++ steps ∧
    ∀ i e, steps !! i = Some e → annotation_step e →
      ∃ j row, (j < i)%nat ∧ steps !! j = Some (EvCommit row) ∧
        attempts (check_answer dec ontology serialize_turtle form uid w).2
          = attempts w ++ [row].
Proof.
  destruct (form_int dec form "a") as [a|] eqn:Ha;
    [destruct (form_int dec form "b") as [b|] eqn:Hb;
      [destruct (form_int dec form "answer") as [s|] eqn:Hs|]|].
  2-4: destruct (check_answer_rejected dec ontology serialize_turtle form
                   uid w) as [e ->]; [by auto|];
       exists []; split; [by rewrite app_nil_r|]; by intros i e' Hi.
  assert (bindable (mkNew uid a b s (a + b) (s =? a + b)) = false
            ∨ new_key (rowid_search w) (attempts w) = None →
          ∃ steps,
            trace (check_answer dec ontology serialize_turtle form uid w).2
              = trace w ++ steps ∧
            ∀ i e, steps !! i = Some e → annotation_step e →
              ∃ j row, (j < i)%nat ∧ steps !! j = Some (EvCommit row) ∧
                attempts (check_answer dec ontology serialize_turtle
                            form uid w).2
                  = attempts w ++ [row]) as Hstop.
  { intros Hno.
    rewrite (check_answer_refused _ _ _ _ _ _ a b s Ha Hb Hs Hno).
    eexists. split; [reflexivity|].
    intros [|i] e Hi He; [|done]. injection Hi as <-. destruct He. }
  destruct (bindable (mkNew uid a b s (a + b) (s =? a + b))) eqn:Hbind;
    [|by auto].
  destruct (new_key (rowid_search w) (attempts w)) as [key|] eqn:Hkey;
    [|by auto].
  clear Hstop.
  rewrite (check_answer_run_key _ _ _ _ _ _ a b s key Ha Hb Hs Hbind Hkey).
  set (new := mkNew uid a b s (a + b) (s =? a + b)).
  set (r := insert_row key (db_now w) new).
  assert (∀ tl i e,
    (steps_to_serialize ontology new r ++ tl) !! i = Some e →
    annotation_step e →
    ∃ j row, (j < i)%nat ∧
      (steps_to_serialize ontology new r ++ tl) !! j = Some (EvCommit row) ∧
      attempts w ++ [r] = attempts w ++ [row]) as Hsteps.
  { intros tl [|[|i]] e Hi He.
    - injection Hi as <-. destruct He.
    - injection Hi as <-. destruct He.
    - exists 1%nat, r. split; [lia|done]. }
  destruct (serialize_turtle _) as [ttl|e]; cbn [fst snd trace attempts].
  - exists (steps_to_serialize ontology new r ++ [EvPrint ttl]).
    split; [done|]. apply Hsteps.
  - exists (steps_to_serialize ontology new r ++ []).
    split; [by rewrite app_nil_r|]. apply Hsteps.
Qed.

(** ** Non-numeric input *)

(** The request a="abc" ends in an unhandled [ValueError]: no response
    payload, hence no validation message, is produced. *)
Lemma non_numeric_is_unhandled :
  (check_answer unicode_14 empty_graph serializer_ok
     (form_of "abc" "4" "7") 1 world0).1 = Raise ValueError ∧
  ¬ ∃ p, (check_answer unicode_14 empty_graph serializer_ok
            (form_of "abc" "4" "7") 1 world0).1 = Ok p.
Proof. split; [reflexivity|]. by intros [p Hp]. Qed.

(** C8 (amended). When the three form fields are present and one of them
    is not numeric, [int] raises [ValueError] before evaluation: nothing is
    persisted, annotated or printed (the world is unchanged), and the
    exception leaves the handler unhandled. *)
Theorem non_numeric_raises_before_evaluation
    dec ontology serialize_turtle form uid w va vb vs :
  form !! "a" = Some va →
  form !! "b" = Some vb →
  form !! "answer" = Some vs →
  PyInt.int dec va = None ∨ PyInt.int dec vb = None
    ∨ PyInt.int dec vs = None →
  check_answer dec ontology serialize_turtle form uid w
  = (Raise ValueError, w).
Proof.
  intros Ha Hb Hs H. unfold check_answer.
  unfold bind at 1. rewrite form_int_run, Ha.
  destruct (PyInt.int dec va) as [a|]; [|done].
  unfold bind at 1. rewrite form_int_run, Hb.
  destruct (PyInt.int dec vb) as [b|]; [|done].
  unfold bind at 1. rewrite form_int_run, Hs.
  destruct (PyInt.int dec vs) as [s|]; [|done].
  by destruct H as [?|[?|?]].
Qed.

(** An instance: the answer field "seven". *)
Lemma non_numeric_raises_before_evaluation_witness :
  check_answer unicode_14 empty_graph serializer_ok
    (form_of "3" "4" "seven") 1 world0
  = (Raise ValueError, world0).
Proof.
  apply (non_numeric_raises_before_evaluation unicode_14 empty_graph
           serializer_ok (form_of "3" "4" "seven") 1 world0
           "3" "4" "seven");
    [reflexivity..|]. right; right; reflexivity.
Defined.

(** ** The semantic record *)

(** C9. Two runs of the annotation step with the same attempt identifier,
    a, b and submitted answer, in any two worlds, build graphs with exactly
    the same set of triples (the ten asserted ones); asserting these triples
    again into such a graph leaves its triples unchanged. *)
Theorem annotate_same_triples
    (ontology : Graph) (attempt_id a b s : Z) (w1 w2 : World) :
  ∃ g1 g2,
    (annotate ontology attempt_id a b s w1).1 = Ok g1 ∧
    (annotate ontology attempt_id a b s w2).1 = Ok g2 ∧
    triples g1 = triples g2 ∧
    (∀ t, t ∈ triples g1
          ↔ t ∈ attempt_triples ontology attempt_id a b s) ∧
    (∀ w, ∃ g',
       (graph_add_all g1 (attempt_triples ontology attempt_id a b s) w).1
         = Ok g' ∧
       triples g' = triples g1).
Proof.
  rewrite !annotate_run. eexists _, _. split_and!; try reflexivity.
  - intros t. cbn [attempt_graph triples]. apply elem_of_list_to_set.
  - intros w. rewrite graph_add_all_run. eexists. split; [reflexivity|].
    cbn [attempt_graph triples]. apply (idemp_L (∪)).
Qed.

(** With a = 0, b = 5 and the wrong answer 3, the triple giving operand b
    its value carries the literal 5, which is the correct sum. *)
Lemma operand_literal_equals_sum :
  3 ≠ 0 + 5 ∧
  ∃ g t,
    (annotate empty_graph 1 0 5 3 world0).1 = Ok g ∧
    t ∈ triples g ∧ t.2 = int_literal (0 + 5).
Proof.
  split; [lia|]. rewrite annotate_run.
  exists (attempt_graph empty_graph (bnode_supply world0) 1 0 5 3),
    (num_iri empty_graph 5 1, MATH empty_graph "hasValue", int_literal 5).
  split_and!; [done| |done].
  cbn [attempt_graph triples]. apply elem_of_list_to_set.
  unfold attempt_triples. do 8 right. left.
Qed.

(** C10 (amended). The result instance of every attempt is named after the
    submitted answer and its only [hasValue] literal is the submitted
    answer.  A triple whose object is the literal a + b exists only when the
    attempt is correct or one operand is 0; so for an incorrect attempt with
    both operands non-zero no triple carries the correct sum. *)
Theorem result_value_is_submitted_answer
    (ontology : Graph) (attempt_id a b s : Z) (w : World) :
  ∃ g,
    (annotate ontology attempt_id a b s w).1 = Ok g ∧
    (expr_iri ontology attempt_id, MATH ontology "hasResult",
       num_iri ontology s attempt_id) ∈ triples g ∧
    (num_iri ontology s attempt_id, MATH ontology "hasValue", int_literal s)
      ∈ triples g ∧
    (∀ v, (num_iri ontology s attempt_id, MATH ontology "hasValue",
             int_literal v) ∈ triples g → v = s) ∧
    (∀ t, t ∈ triples g → t.2 = int_literal (a + b) →
          a = 0 ∨ b = 0 ∨ s = a + b).
Proof.
  rewrite annotate_run. eexists. split; [reflexivity|].
  cbn [attempt_graph triples]. setoid_rewrite elem_of_list_to_set.
  unfold attempt_triples. split_and!.
  - do 3 right. left.
  - do 9 right. left.
  - intros v Hv.
    repeat (apply elem_of_cons in Hv as [Hv|Hv]);
      try (by apply elem_of_nil in Hv);
      apply pair_equal_spec in Hv as [Hv Ho];
      apply pair_equal_spec in Hv as [Hs Hp]; try discriminate;
      try (by symmetry in Hs; apply expr_iri_ne_num_iri in Hs);
      apply num_iri_inj in Hs as [Hs _]; unfold int_literal in *; congruence.
  - intros t Ht Hobj.
    repeat (apply elem_of_cons in Ht as [->|Ht]);
      try (by apply elem_of_nil in Ht);
      cbn in Hobj; try discriminate;
      injection Hobj as Hobj; lia.
Qed.

(** * Further properties of the handlers *)

(** ** The ontology report at start-up *)

Lemma has_subject_iff (g : Graph) (s : node) :
  has_subject g s = true ↔ ∃ p o, (s, p, o) ∈ triples g.
Proof.
  unfold has_subject. rewrite bool_decide_eq_true. split.
  - intros ([[s' p] o] & Hin & Hs). simpl in Hs. subst s'. by exists p, o.
  - intros (p & o & Hin). by exists (s, p, o).
Qed.

(** The names a loop warns about. *)
Lemma warn_missing_run (ont : Graph) (warning : string → string)
    (names : list string) (w : World) :
  warn_missing ont warning names w =
    (Ok tt,
     let ws := warning <$>
       List.filter (λ n, negb (has_subject ont (MATH ont n))) names in
     mkWorld (attempts w) (db_now w) (rowid_search w) (bnode_supply w)
       (stdout w ++ ws)
       (trace w ++ (EvPrint <$> ws))).
Proof.
  revert w. induction names as [|name rest IH]; intros w.
  - destruct w as [tbl now rnd sup out tr]. cbn. by rewrite !app_nil_r.
  - cbn [warn_missing List.filter]. unfold bind.
    destruct (has_subject ont (MATH ont name)); cbn [negb].
    + unfold ret. apply IH.
    + unfold print. rewrite IH. destruct w as [tbl now rnd sup out tr]; cbn.
      by rewrite <- !app_assoc.
Qed.

Lemma verify_ontology_run (ont : Graph) (path : string) (w : World) :
  verify_ontology ont path w =
    (Ok tt,
     let ws :=
       (class_warning <$>
          List.filter (λ n, negb (has_subject ont (MATH ont n)))
            required_classes) ++
       (property_warning <$>
          List.filter (λ n, negb (has_subject ont (MATH ont n)))
            required_props) in
     let lines := [loaded_line path; base_iri_line ont] ++ ws in
     mkWorld (attempts w) (db_now w) (rowid_search w) (bnode_supply w)
       (stdout w ++ lines)
       (trace w ++ (EvPrint <$> lines))).
Proof.
  unfold verify_ontology, bind, print. rewrite !warn_missing_run.
  destruct w as [tbl now rnd sup out tr];
    cbn [attempts db_now rowid_search bnode_supply stdout trace log].
  f_equal. f_equal.
  - rewrite <- !app_assoc. reflexivity.
  - rewrite !fmap_app, <- !app_assoc. reflexivity.
Qed.

Lemma elem_of_missing (ont : Graph) (warning : string → string)
    (names : list string) (line : string) :
  line ∈ warning <$>
    List.filter (λ n, negb (has_subject ont (MATH ont n))) names
  ↔ ∃ name, name ∈ names ∧ line = warning name ∧
            ¬ ∃ p o, (MATH ont name, p, o) ∈ triples ont.
Proof.
  rewrite list_elem_of_fmap. setoid_rewrite list_elem_of_In.
  setoid_rewrite filter_In. setoid_rewrite negb_true_iff.
  setoid_rewrite <- has_subject_iff. split.
  - intros (name & -> & Hin & Hs). exists name. by rewrite Hs.
  - intros (name & Hin & -> & Hs). exists name.
    by destruct (has_subject ont (MATH ont name)).
Qed.

(** The two warning lists, as [verify_ontology] prints them. *)
Lemma no_warning_iff (ont : Graph) :
  (class_warning <$>
     List.filter (λ n, negb (has_subject ont (MATH ont n))) required_classes)
  ++ (property_warning <$>
        List.filter (λ n, negb (has_subject ont (MATH ont n))) required_props)
  = []
  ↔ ∀ name, name ∈ required_classes ++ required_props →
            ∃ p o, (MATH ont name, p, o) ∈ triples ont.
Proof.
  split.
  - intros Hnil name Hname. apply has_subject_iff.
    destruct (has_subject ont (MATH ont name)) eqn:Hs; [done|].
    apply app_eq_nil in Hnil as [Hc Hp].
    apply elem_of_app in Hname as [Hname|Hname].
    + assert (class_warning name ∈ @nil string) as Hin; [|by apply elem_of_nil in Hin].
      rewrite <- Hc. apply elem_of_missing. exists name.
      split_and!; [done..|]. rewrite <- has_subject_iff. congruence.
    + assert (property_warning name ∈ @nil string) as Hin; [|by apply elem_of_nil in Hin].
      rewrite <- Hp. apply elem_of_missing. exists name.
      split_and!; [done..|]. rewrite <- has_subject_iff. congruence.
  - intros Hall.
    assert (∀ names,
      (∀ n, n ∈ names → n ∈ required_classes ++ required_props) →
      List.filter (λ n, negb (has_subject ont (MATH ont n))) names = [])
      as Hfilter.
    { induction names as [|n names IH]; intros Hsub; [done|]. cbn.
      assert (has_subject ont (MATH ont n) = true) as ->.
      { apply has_subject_iff, Hall, Hsub. left. }
      cbn. apply IH. intros m Hm. apply Hsub. by right. }
    rewrite !Hfilter; [done|..].
    + intros n Hn. apply elem_of_app. by right.
    + intros n Hn. apply elem_of_app. by left.
Qed.

(** X1. Start-up never fails on a parsed ontology: it prints the two status
    lines and then one warning for exactly those required classes and
    properties that are the subject of no triple of the ontology (at most
    five); it prints no warning exactly when all five terms are defined.
    The attempt table is not touched. *)
Theorem verify_ontology_report (ont : Graph) (path : string) (w : World) :
  ∃ ws,
    (verify_ontology ont path w).1 = Ok tt ∧
    stdout (verify_ontology ont path w).2
      = stdout w ++ [loaded_line path; base_iri_line ont] ++ ws ∧
    attempts (verify_ontology ont path w).2 = attempts w ∧
    (length ws ≤ 5)%nat ∧
    (∀ line, line ∈ ws ↔
       (∃ cls, cls ∈ required_classes ∧ line = class_warning cls ∧
               ¬ ∃ p o, (MATH ont cls, p, o) ∈ triples ont) ∨
       (∃ prop, prop ∈ required_props ∧ line = property_warning prop ∧
                ¬ ∃ p o, (MATH ont prop, p, o) ∈ triples ont)) ∧
    (ws = [] ↔
       ∀ name, name ∈ required_classes ++ required_props →
               ∃ p o, (MATH ont name, p, o) ∈ triples ont).
Proof.
  rewrite verify_ontology_run. eexists. split_and!; try reflexivity.
  - rewrite length_app, !length_fmap.
    pose proof (filter_length_le
      (λ n, negb (has_subject ont (MATH ont n))) required_classes).
    pose proof (filter_length_le
      (λ n, negb (has_subject ont (MATH ont n))) required_props).
    cbn [required_classes required_props length] in *. lia.
  - intros line. rewrite elem_of_app. by rewrite !elem_of_missing.
  - apply no_warning_iff.
Qed.

(** X2. The terms checked at start-up are the terms the annotation uses:
    when start-up printed no warning, every triple asserted for any attempt
    has a predicate that is rdf:type or is defined in the ontology, and the
    class of every rdf:type triple is defined in the ontology. *)
Theorem annotation_terms_verified
    (ont : Graph) (path : string) (w : World) (attempt_id a b s : Z)
    (t : triple) :
  stdout (verify_ontology ont path w).2
    = stdout w ++ [loaded_line path; base_iri_line ont] →
  t ∈ attempt_triples ont attempt_id a b s →
  (t.1.2 = RDF_type ∧ ∃ p o, (t.2, p, o) ∈ triples ont) ∨
  (∃ p o, (t.1.2, p, o) ∈ triples ont).
Proof.
  intros Hout Ht. rewrite verify_ontology_run in Hout.
  cbn [snd stdout] in Hout. apply (inj (app _)) in Hout.
  apply (inj (app [loaded_line path; base_iri_line ont]) _ []) in Hout.
  pose proof (proj1 (no_warning_iff ont) Hout) as Hall. clear - Hall Ht.
  unfold attempt_triples in Ht.
  repeat (apply elem_of_cons in Ht as [->|Ht]);
    try (by apply elem_of_nil in Ht); cbn [fst snd];
    first [ left; split; [reflexivity|]; apply Hall, list_elem_of_In;
            cbn; tauto
          | right; apply Hall, list_elem_of_In; cbn; tauto ].
Qed.

(** An instance: the hasResult triple over the full ontology. *)
Lemma annotation_terms_verified_witness :
  (MATH full_ontology "hasResult" = RDF_type ∧
     ∃ p o, (num_iri full_ontology 8 1, p, o) ∈ triples full_ontology) ∨
  (∃ p o, (MATH full_ontology "hasResult", p, o) ∈ triples full_ontology).
Proof.
  apply (annotation_terms_verified full_ontology "math.owl" world0 1 3 4 8
           (expr_iri full_ontology 1, MATH full_ontology "hasResult",
            num_iri full_ontology 8 1)).
  - vm_compute. reflexivity.
  - unfold attempt_triples. do 3 right. left.
Defined.

(** ** Rejected and accepted requests *)

Lemma field_error_run (dec : N → option N) (form : gmap string string)
    (key : string) (w : World) :
  match field_error dec form key with
  | Some e => bind (form_get form key) (int_ dec) w = (Raise e, w)
  | None => ∃ n, form_int dec form key = Some n ∧
                 bind (form_get form key) (int_ dec) w = (Ok n, w)
  end.
Proof.
  unfold field_error, form_int. rewrite form_int_run.
  destruct (form !! key) as [v|]; [|done]. cbn.
  destruct (PyInt.int dec v) as [n|]; [|done]. by exists n.
Qed.

(** X3. The form fields are read in the order a, b, answer, and the first
    one that is missing (BadRequestKeyError naming the key) or not numeric
    (ValueError) decides the exception; in each case nothing is persisted,
    annotated or printed. *)
Theorem check_answer_first_bad_field
    dec ontology serialize_turtle form uid w (e : exn) :
  (field_error dec form "a" = Some e →
   check_answer dec ontology serialize_turtle form uid w = (Raise e, w)) ∧
  (field_error dec form "a" = None → field_error dec form "b" = Some e →
   check_answer dec ontology serialize_turtle form uid w = (Raise e, w)) ∧
  (field_error dec form "a" = None → field_error dec form "b" = None →
   field_error dec form "answer" = Some e →
   check_answer dec ontology serialize_turtle form uid w = (Raise e, w)).
Proof.
  pose proof (field_error_run dec form "a" w) as Ha.
  pose proof (field_error_run dec form "b" w) as Hb.
  pose proof (field_error_run dec form "answer" w) as Hs.
  unfold check_answer. split_and!.
  - intros E. rewrite E in Ha. unfold bind at 1. by rewrite Ha.
  - intros Ea Eb. rewrite Ea in Ha. rewrite Eb in Hb.
    destruct Ha as (a & _ & Ha).
    unfold bind at 1. rewrite Ha. unfold bind at 1. by rewrite Hb.
  - intros Ea Eb Es. rewrite Ea in Ha. rewrite Eb in Hb. rewrite Es in Hs.
    destruct Ha as (a & _ & Ha). destruct Hb as (b & _ & Hb).
    unfold bind at 1. rewrite Ha. unfold bind at 1. rewrite Hb.
    unfold bind at 1. by rewrite Hs.
Qed.

Lemma check_answer_attempts dec ontology serialize_turtle form uid w :
  attempts (check_answer dec ontology serialize_turtle form uid w).2
    = attempts w ∨
  ∃ a b s key,
    new_key (rowid_search w) (attempts w) = Some key ∧
    attempts (check_answer dec ontology serialize_turtle form uid w).2
    = attempts w ++
        [Attempt.mk key uid a b s (a + b) (s =? a + b) (db_now w)].
Proof.
  destruct (check_answer_cases dec ontology serialize_turtle form uid w)
    as [(e & -> & _)|(a & b & s & _ & _ & _ & [[_ ->]|(key & _ & Hkey & H)])].
  - by left.
  - by left.
  - right. by exists a, b, s, key.
Qed.

Lemma next_id_pos (table : list Attempt.t) : 0 < next_id table.
Proof. unfold next_id. induction table; simpl; lia. Qed.

(** X4. The handler keeps the primary keys of the attempt table unique,
    whatever the request and its outcome: a row it adds has a positive key
    that fits in 64 bits and is larger than every key already in the
    table, unless the largest of those is 2^63 - 1, when it is a key not in
    use. *)
Theorem check_answer_keeps_ids_unique
    dec ontology serialize_turtle form uid w :
  NoDup (Attempt.id <$> attempts w) →
  NoDup (Attempt.id <$>
           attempts (check_answer dec ontology serialize_turtle
                       form uid w).2) ∧
  ∀ r, r ∈ attempts (check_answer dec ontology serialize_turtle
                       form uid w).2 →
       r ∈ attempts w ∨
       (0 < Attempt.id r ∧ fits_int64 (Attempt.id r) = true ∧
        (Attempt.id r ∉ Attempt.id <$> attempts w) ∧
        (fits_int64 (next_id (attempts w)) = true →
         ∀ r0, r0 ∈ attempts w → Attempt.id r0 < Attempt.id r)).
Proof.
  intros Hnd.
  destruct (check_answer_attempts dec ontology serialize_turtle form uid w)
    as [->|(a & b & s & key & Hkey & ->)]; [by auto|].
  apply new_key_Some in Hkey as (Hfits & Hnext & Hsearch).
  assert (0 < key ∧ key ∉ Attempt.id <$> attempts w) as [Hpos Hfresh].
  { destruct (fits_int64 (next_id (attempts w))); [|by auto].
    rewrite Hnext by done. split; [apply next_id_pos|].
    intros Hin. apply list_elem_of_fmap in Hin as (r0 & Heq & Hr0).
    apply next_id_fresh in Hr0. lia. }
  split.
  - rewrite fmap_app. apply NoDup_app.
    split_and!; [done| |apply NoDup_singleton].
    intros i Hi Hi'. apply list_elem_of_singleton in Hi'. cbn in Hi'.
    by subst i.
  - intros r Hr. apply elem_of_app in Hr as [Hr|Hr]; [by left|right].
    apply list_elem_of_singleton in Hr as ->. cbn [Attempt.id].
    split_and!; [done..|].
    intros Hn r0 Hr0. rewrite Hnext by done. by apply next_id_fresh.
Qed.

(** An instance: a third attempt on a table with keys 1 and 2. *)
Lemma check_answer_keeps_ids_unique_witness :
  NoDup (Attempt.id <$>
           attempts (check_answer unicode_14 empty_graph serializer_ok
                       (form_of "3" "4" "7") 5
                       (mkWorld [row 1 5 10; row 2 5 10] 20 no_key 0
                          [] [])).2) ∧
  ∀ r, r ∈ attempts (check_answer unicode_14 empty_graph serializer_ok
                       (form_of "3" "4" "7") 5
                       (mkWorld [row 1 5 10; row 2 5 10] 20 no_key 0
                          [] [])).2 →
       r ∈ [row 1 5 10; row 2 5 10] ∨
       (0 < Attempt.id r ∧ fits_int64 (Attempt.id r) = true ∧
        (Attempt.id r ∉ Attempt.id <$> [row 1 5 10; row 2 5 10]) ∧
        (fits_int64 (next_id [row 1 5 10; row 2 5 10]) = true →
         ∀ r0, r0 ∈ [row 1 5 10; row 2 5 10] →
               Attempt.id r0 < Attempt.id r)).
Proof.
  apply (check_answer_keeps_ids_unique unicode_14 empty_graph serializer_ok
           (form_of "3" "4" "7") 5
           (mkWorld [row 1 5 10; row 2 5 10] 20 no_key 0 [] [])).
  apply (bool_decide_unpack _). by vm_compute.
Defined.

(** X5. The range of the operands and the answer is that of the 64-bit
    columns.  When one of a, b, the answer or the sum a + b does not fit in
    64 bits, the commit raises OverflowError: nothing is stored and nothing
    is printed, for example at a = 2^63 - 1, b = 1.  When they fit,
    negative ones included, as do the user id and the next key, the request
    carrying their decimal renderings stores exactly a, b, s with
    correct_answer = a + b. *)
Theorem check_answer_int64_range
    dec ontology serialize_turtle uid (w : World) :
  (∀ form a b s,
     form_int dec form "a" = Some a → form_int dec form "b" = Some b →
     form_int dec form "answer" = Some s →
     fits_int64 a = false ∨ fits_int64 b = false ∨ fits_int64 s = false
       ∨ fits_int64 (a + b) = false →
     (check_answer dec ontology serialize_turtle form uid w).1
       = Raise OverflowError ∧
     attempts (check_answer dec ontology serialize_turtle form uid w).2
       = attempts w ∧
     stdout (check_answer dec ontology serialize_turtle form uid w).2
       = stdout w) ∧
  (∀ a b s,
     storable (attempts w) uid a b s = true →
     attempts (check_answer dec ontology serialize_turtle
                 (form_of (Py.str a) (Py.str b) (Py.str s)) uid w).2
     = attempts w ++
         [Attempt.mk (next_id (attempts w)) uid a b s (a + b)
            (bool_decide (s = a + b)) (db_now w)]) ∧
  (check_answer dec ontology serialize_turtle
     (form_of "9223372036854775807" "1" "0") uid w).1
    = Raise OverflowError.
Proof.
  assert (∀ form a b s,
     form_int dec form "a" = Some a → form_int dec form "b" = Some b →
     form_int dec form "answer" = Some s →
     bindable (mkNew uid a b s (a + b) (s =? a + b)) = false →
     check_answer dec ontology serialize_turtle form uid w
     = (Raise OverflowError,
        mkWorld (attempts w) (db_now w) (rowid_search w) (bnode_supply w)
          (stdout w)
          (trace w ++ [EvSessionAdd (mkNew uid a b s (a + b) (s =? a + b))])))
    as Hover.
  { intros form a b s Ha Hb Hs Hbind.
    rewrite (check_answer_refused _ _ _ _ _ _ a b s Ha Hb Hs
               (or_introl Hbind)).
    by rewrite Hbind. }
  split_and!.
  - intros form a b s Ha Hb Hs Hbig.
    rewrite (Hover form a b s Ha Hb Hs); [done|].
    unfold bindable.
    cbn [new_user_id new_a new_b new_student_answer new_correct_answer].
    destruct Hbig as [-> | [-> | [-> | ->]]];
      by rewrite ?andb_false_r.
  - intros a b s Hst.
    pose proof (proj1 (storable_true_iff _ _ _ _ _) Hst)
      as (_ & Ha & Hb & Hs & _).
    destruct (form_of_str dec a b s) as (Fa & Fb & Fs);
      [by apply fits_int64_limit..|].
    rewrite (check_answer_run _ _ _ _ _ _ a b s Fa Fb Fs Hst).
    rewrite <- eqb_bool_decide. by destruct (serialize_turtle _).
  - rewrite (Hover (form_of "9223372036854775807" "1" "0")
               9223372036854775807 1 0); [done|..].
    + apply (proj1 (form_of_str dec 9223372036854775807 1 0
                      ltac:(by apply fits_int64_limit)
                      ltac:(by apply fits_int64_limit)
                      ltac:(by apply fits_int64_limit))).
    + apply (proj1 (proj2 (form_of_str dec 9223372036854775807 1 0
                      ltac:(by apply fits_int64_limit)
                      ltac:(by apply fits_int64_limit)
                      ltac:(by apply fits_int64_limit)))).
    + apply (proj2 (proj2 (form_of_str dec 9223372036854775807 1 0
                      ltac:(by apply fits_int64_limit)
                      ltac:(by apply fits_int64_limit)
                      ltac:(by apply fits_int64_limit)))).
    + unfold bindable. cbn [new_user_id new_a new_b new_student_answer
                            new_correct_answer].
      by rewrite !andb_false_r.
Qed.

(** ** Requests and the dashboard *)

(** X6. A request of one user never changes what another user's dashboard
    shows, on any page. *)
Theorem check_answer_other_dashboards_unchanged
    dec ontology serialize_turtle form uid w (arg : option string)
    (other : Z) :
  other ≠ uid →
  dashboard dec arg other
    (check_answer dec ontology serialize_turtle form uid w).2
  = dashboard dec arg other w.
Proof.
  intros Hne. unfold dashboard.
  destruct (check_answer_attempts dec ontology serialize_turtle form uid w)
    as [->|(a & b & s & key & _ & ->)]; [done|].
  unfold filter_by_user_id. rewrite List.filter_app. cbn.
  destruct (Z.eqb_spec uid other); [congruence|]. by rewrite app_nil_r.
Qed.

Lemma check_answer_other_dashboards_unchanged_witness :
  dashboard unicode_14 (Some "1") 6
    (check_answer unicode_14 empty_graph serializer_ok
       (form_of "3" "4" "7") 5
       (mkWorld [row 1 5 10; row 2 6 10] 20 no_key 0 [] [])).2
  = dashboard unicode_14 (Some "1") 6
      (mkWorld [row 1 5 10; row 2 6 10] 20 no_key 0 [] []).
Proof.
  apply (check_answer_other_dashboards_unchanged unicode_14 empty_graph
           serializer_ok (form_of "3" "4" "7") 5
           (mkWorld [row 1 5 10; row 2 6 10] 20 no_key 0 [] []) (Some "1") 6).
  lia.
Defined.

Lemma order_by_timestamp_desc_snoc_newest
    (rows : list Attempt.t) (x : Attempt.t) :
  (∀ r, r ∈ rows → Attempt.timestamp r < Attempt.timestamp x) →
  order_by_timestamp_desc (rows ++ [x]) = x :: order_by_timestamp_desc rows.
Proof.
  induction rows as [|y rows IH]; intros Hlt; [done|].
  cbn [app order_by_timestamp_desc foldr].
  change (foldr insert_desc [] (rows ++ [x]))
    with (order_by_timestamp_desc (rows ++ [x])).
  rewrite IH by (intros r Hr; apply Hlt; by right).
  cbn [insert_desc].
  destruct (Z.leb_spec (Attempt.timestamp x) (Attempt.timestamp y)); [|done].
  specialize (Hlt y ltac:(left)). lia.
Qed.

(** X7. When the row of a request is committed and the database clock is
    later than the timestamps of the user's stored attempts, the attempt
    just committed is the first item of the first dashboard page of that
    user. *)
Theorem new_attempt_heads_first_page
    dec ontology serialize_turtle form uid w a b s key :
  form_int dec form "a" = Some a →
  form_int dec form "b" = Some b →
  form_int dec form "answer" = Some s →
  bindable (mkNew uid a b s (a + b) (s =? a + b)) = true →
  new_key (rowid_search w) (attempts w) = Some key →
  (∀ r, r ∈ attempts w → Attempt.user_id r = uid →
        Attempt.timestamp r < db_now w) →
  ∃ p,
    dashboard dec None uid
      (check_answer dec ontology serialize_turtle form uid w).2 = Ok p ∧
    head (items p)
    = Some (Attempt.mk key uid a b s (a + b) (s =? a + b) (db_now w)).
Proof.
  intros Ha Hb Hs Hbind Hkey Hnew. unfold dashboard.
  rewrite (check_answer_run_key _ _ _ _ _ _ a b s key Ha Hb Hs Hbind Hkey).
  match goal with |- context [attempts ?x.2] =>
    assert (attempts x.2
            = attempts w ++
                [insert_row key (db_now w)
                   (mkNew uid a b s (a + b) (s =? a + b))]) as ->
      by (by destruct (serialize_turtle _))
  end.
  unfold filter_by_user_id. rewrite List.filter_app. cbn [List.filter].
  unfold insert_row at 1. cbn [Attempt.user_id new_user_id].
  rewrite Z.eqb_refl.
  rewrite order_by_timestamp_desc_snoc_newest.
  - eexists. split; [reflexivity|done].
  - intros r Hr. apply list_elem_of_In, filter_In in Hr as [Hr Hu].
    cbn. apply Hnew; [by apply list_elem_of_In|by apply Z.eqb_eq].
Qed.

(** An instance: clock 20, two stored attempts at time 10. *)
Lemma new_attempt_heads_first_page_witness :
  ∃ p,
    dashboard unicode_14 None 5
      (check_answer unicode_14 empty_graph serializer_ok
         (form_of "3" "4" "7") 5
         (mkWorld [row 1 5 10; row 2 5 10] 20 no_key 0 [] [])).2 = Ok p ∧
    head (items p) = Some (Attempt.mk 3 5 3 4 7 (3 + 4) (7 =? 3 + 4) 20).
Proof.
  apply (new_attempt_heads_first_page unicode_14 empty_graph serializer_ok
           (form_of "3" "4" "7") 5
           (mkWorld [row 1 5 10; row 2 5 10] 20 no_key 0 [] []) 3 4 7 3);
    [reflexivity..|].
  intros r Hr _. cbn in Hr.
  repeat (apply elem_of_cons in Hr as [->|Hr]); [cbn; lia..|].
  by apply elem_of_nil in Hr.
Defined.

Lemma page_arg_str (dec : N → option N) (k : Z) :
  Z.abs k < 10 ^ 4300 → page_arg dec (Some (Py.str k)) = k.
Proof. intros Hk. unfold page_arg. by rewrite int_str. Qed.

Lemma dashboard_page (dec : N → option N) (k : Z) (uid : Z) (w : World) :
  1 ≤ k → fits_int64 ((k - 1) * 10) = true →
  dashboard dec (Some (Py.str k)) uid w
  = Ok (mkPagination
          (take 10 (drop (Z.to_nat ((k - 1) * 10))
                      (order_by_timestamp_desc
                         (filter_by_user_id uid (attempts w)))))
          k 10
          (Z.of_nat (length (order_by_timestamp_desc
                               (filter_by_user_id uid (attempts w)))))).
Proof.
  intros Hk Hfits. unfold dashboard.
  assert (Z.abs k < 10 ^ 4300) as Hlim.
  { apply fits_int64_iff in Hfits.
    assert (10 ^ 19 ≤ 10 ^ 4300) as Hpow by (apply Z.pow_le_mono_r; lia).
    assert (2 ^ 63 < 10 ^ 19) as H19 by done.
    generalize dependent (10 ^ 4300). intros big Hbig. lia. }
  rewrite page_arg_str by done.
  rewrite paginate_fits; replace (Z.max 1 k) with k by lia; done.
Qed.

(** X8. Paging loses nothing: in a table of at most 2^63 rows, every stored
    attempt of a user is an item of some dashboard page of that user. *)
Theorem every_attempt_is_on_some_page
    (dec : N → option N) (uid : Z) (w : World) (r : Attempt.t) :
  Z.of_nat (length (attempts w)) ≤ 2 ^ 63 →
  r ∈ attempts w → Attempt.user_id r = uid →
  ∃ k p, 1 ≤ k ∧ dashboard dec (Some (Py.str k)) uid w = Ok p ∧
         r ∈ items p.
Proof.
  intros Hlen Hr Hu.
  assert (r ∈ order_by_timestamp_desc (filter_by_user_id uid (attempts w)))
    as Hin.
  { rewrite order_by_timestamp_desc_perm. by apply elem_of_filter_by_user_id. }
  apply list_elem_of_lookup in Hin as [i Hi].
  assert (i < length (attempts w))%nat as Hi_lt.
  { apply lookup_lt_Some in Hi. rewrite order_by_timestamp_desc_perm in Hi.
    unfold filter_by_user_id in Hi.
    pose proof (filter_length_le (λ r, Attempt.user_id r =? uid) (attempts w)).
    lia. }
  pose proof (Nat.div_mod_eq i 10) as Hdm.
  eexists (Z.of_nat (i `div` 10) + 1), _. split; [lia|].
  rewrite dashboard_page; [|lia|apply fits_int64_iff; lia].
  split; [reflexivity|]. cbn [items].
  apply list_elem_of_lookup. exists (i `mod` 10)%nat.
  rewrite lookup_take_lt by (apply Nat.mod_upper_bound; lia).
  rewrite lookup_drop.
  replace (Z.to_nat ((Z.of_nat (i `div` 10) + 1 - 1) * 10) + i `mod` 10)%nat
    with i; [done|lia].
Qed.

Lemma every_attempt_is_on_some_page_witness :
  ∃ k p, 1 ≤ k ∧
         dashboard unicode_14 (Some (Py.str k)) 5
           (mkWorld [row 1 5 10; row 2 5 10] 20 no_key 0 [] []) = Ok p ∧
         row 2 5 10 ∈ items p.
Proof.
  apply (every_attempt_is_on_some_page unicode_14 5
           (mkWorld [row 1 5 10; row 2 5 10] 20 no_key 0 [] []) (row 2 5 10)).
  - cbn. lia.
  - cbn. right. left.
  - reflexivity.
Defined.

(** X9. The pages tile the listing: as long as their offsets fit in 64
    bits, pages 1 to n, one after the other, show the first 10 n entries of
    the user's listing, so no attempt is shown on two pages or skipped
    between pages; in a table of fewer than 2^63 rows, the pages up to the
    last one together are a permutation of the user's attempts. *)
Theorem dashboard_pages_partition (dec : N → option N) (uid : Z) (w : World) :
  (∀ n : nat,
     10 * (Z.of_nat n - 1) ≤ 2 ^ 63 - 1 →
     concat ((λ k : nat,
                shown (dashboard dec (Some (Py.str (Z.of_nat k))) uid w))
               <$> seq 1 n)
     = take (10 * n)
         (order_by_timestamp_desc (filter_by_user_id uid (attempts w)))) ∧
  (Z.of_nat (length (attempts w)) < 2 ^ 63 →
   concat ((λ k : nat,
              shown (dashboard dec (Some (Py.str (Z.of_nat k))) uid w))
             <$> seq 1 (length (attempts w) `div` 10 + 1))
   ≡ₚ filter_by_user_id uid (attempts w)).
Proof.
  assert (∀ n : nat,
     10 * (Z.of_nat n - 1) ≤ 2 ^ 63 - 1 →
     concat ((λ k : nat,
                shown (dashboard dec (Some (Py.str (Z.of_nat k))) uid w))
               <$> seq 1 n)
     = take (10 * n)
         (order_by_timestamp_desc (filter_by_user_id uid (attempts w))))
    as Hpages.
  { induction n as [|n IH]; intros Hn; [done|].
    rewrite seq_S, fmap_app, concat_app, IH by lia.
    cbn [fmap list_fmap concat].
    rewrite app_nil_r, dashboard_page; [|lia|apply fits_int64_iff; lia].
    cbn [shown items].
    replace (Z.to_nat ((Z.of_nat (1 + n) - 1) * 10)) with (10 * n)%nat by lia.
    rewrite take_take_drop. f_equal. lia. }
  split; [done|]. intros Hlen.
  pose proof (Nat.div_mod_eq (length (attempts w)) 10) as Hdm.
  pose proof (Nat.mod_upper_bound (length (attempts w)) 10 ltac:(lia)).
  rewrite Hpages by lia. rewrite take_ge.
  - apply order_by_timestamp_desc_perm.
  - rewrite order_by_timestamp_desc_perm. unfold filter_by_user_id.
    pose proof (filter_length_le (λ r, Attempt.user_id r =? uid) (attempts w)).
    lia.
Qed.

(** X10. A page argument that is not numeric or is below 1 is no error: the
    dashboard shows the first page. *)
Theorem dashboard_bad_page_is_first_page
    (dec : N → option N) (v : string) (uid : Z) (w : World) :
  PyInt.int dec v = None ∨ (∃ k, PyInt.int dec v = Some k ∧ k < 1) →
  dashboard dec (Some v) uid w = dashboard dec None uid w.
Proof.
  intros [Hv|(k & Hv & Hk)]; unfold dashboard, page_arg, paginate; rewrite Hv.
  - done.
  - destruct (Z.ltb_spec k 1); [done|lia].
Qed.

Lemma dashboard_bad_page_is_first_page_witness :
  dashboard unicode_14 (Some "-3") 5
    (mkWorld [row 1 5 10; row 2 5 10] 20 no_key 0 [] [])
  = dashboard unicode_14 None 5
      (mkWorld [row 1 5 10; row 2 5 10] 20 no_key 0 [] []).
Proof.
  apply (dashboard_bad_page_is_first_page unicode_14 "-3" 5
           (mkWorld [row 1 5 10; row 2 5 10] 20 no_key 0 [] [])).
  right. exists (-3). split; [reflexivity|lia].
Defined.

(** X11. The page served is the one asked for (page 1 for an argument
    below 1): it reports as total the number of the user's attempts and
    holds min(10, total - 10 (page - 1)) items, ten on a full page, the
    rest on the last one and none on a page past the end.  A page whose
    offset 10 (page - 1) does not fit in 64 bits is not served: the query
    raises OverflowError. *)
Theorem dashboard_page_size
    (dec : N → option N) (arg : option string) (uid : Z) (w : World) :
  let k := Z.max 1 (page_arg dec arg) in
  let n := Z.of_nat (length (filter_by_user_id uid (attempts w))) in
  (fits_int64 ((k - 1) * 10) = false →
   dashboard dec arg uid w = Raise OverflowError) ∧
  (fits_int64 ((k - 1) * 10) = true →
   ∃ p, dashboard dec arg uid w = Ok p ∧ page p = k ∧ total p = n ∧
        Z.of_nat (length (items p)) = Z.max 0 (Z.min 10 (n - (k - 1) * 10))).
Proof.
  intros k n. unfold dashboard. split.
  - apply paginate_overflow.
  - intros Hfits. rewrite paginate_fits by done. eexists.
    split; [reflexivity|]. cbn [page total items]. subst n.
    rewrite length_take, length_drop, !order_by_timestamp_desc_perm.
    split_and!; [done..|]. fold k. lia.
Qed.

(** ** What the semantic record retains *)

(** Equalities between the names used in an attempt graph. *)
Ltac iri_eq H :=
  first
    [ discriminate H
    | by apply expr_iri_ne_num_iri in H
    | by symmetry in H; apply expr_iri_ne_num_iri in H
    | by unfold expr_iri, num_iri, MATH, Namespace in H;
        injection H as H; apply (inj (String.app _)) in H ].

Ltac split_triple_eq H :=
  let Hs := fresh "Hs" in
  let Hp := fresh "Hp" in
  let Ho := fresh "Ho" in
  apply pair_equal_spec in H as [H Ho];
  apply pair_equal_spec in H as [Hs Hp];
  try iri_eq Hs; try iri_eq Hp; try iri_eq Ho.

Lemma has_added_in (ont : Graph) (id a b s id' v : Z) :
  (expr_iri ont id', MATH ont "hasAdded", num_iri ont v id')
    ∈ attempt_triples ont id a b s →
  id' = id ∧ (v = a ∨ v = b).
Proof.
  unfold attempt_triples. intros H.
  repeat (apply elem_of_cons in H as [H|H]);
    try (by apply elem_of_nil in H); split_triple_eq H.
  - apply num_iri_inj in Ho as [-> ->]. auto.
  - apply num_iri_inj in Ho as [-> ->]. auto.
Qed.

Lemma has_result_in (ont : Graph) (id a b s id' v : Z) :
  (expr_iri ont id', MATH ont "hasResult", num_iri ont v id')
    ∈ attempt_triples ont id a b s →
  id' = id ∧ v = s.
Proof.
  unfold attempt_triples. intros H.
  repeat (apply elem_of_cons in H as [H|H]);
    try (by apply elem_of_nil in H); split_triple_eq H.
  by apply num_iri_inj in Ho as [-> ->].
Qed.

Lemma attempt_triples_comm (ont : Graph) (id a b s : Z) (t : triple) :
  t ∈ attempt_triples ont id a b s → t ∈ attempt_triples ont id b a s.
Proof.
  unfold attempt_triples. rewrite !elem_of_cons, !elem_of_nil. tauto.
Qed.

(** X12. The triples of an attempt determine its identifier, the submitted
    answer and the two operands up to their order, and nothing more: two
    attempts have the same triples exactly when they agree on these. *)
Theorem attempt_graph_determines_attempt
    (ont : Graph) (id a b s id' a' b' s' : Z) (w w' : World) :
  ∃ g g',
    (annotate ont id a b s w).1 = Ok g ∧
    (annotate ont id' a' b' s' w').1 = Ok g' ∧
    (triples g = triples g' ↔
       id = id' ∧ s = s' ∧ ((a = a' ∧ b = b') ∨ (a = b' ∧ b = a'))).
Proof.
  rewrite !annotate_run. eexists _, _. split_and!; try reflexivity.
  cbn [fst attempt_graph triples]. split.
  - intros Heq.
    assert (∀ t, t ∈ attempt_triples ont id a b s
                 ↔ t ∈ attempt_triples ont id' a' b' s') as Hiff.
    { intros t. by rewrite <- !(elem_of_list_to_set (C:=gset triple)), Heq. }
    assert (id = id' ∧ s = s') as [<- <-].
    { apply (has_result_in ont id' a' b' s' id s), Hiff.
      unfold attempt_triples. do 3 right. left. }
    split_and!; try done.
    assert (a = a' ∨ a = b') as Ha.
    { apply (has_added_in ont id a' b' s id a), Hiff.
      unfold attempt_triples. do 1 right. left. }
    assert (b = a' ∨ b = b') as Hb.
    { apply (has_added_in ont id a' b' s id b), Hiff.
      unfold attempt_triples. do 2 right. left. }
    assert (a' = a ∨ a' = b) as Ha'.
    { apply (has_added_in ont id a b s id a'), Hiff.
      unfold attempt_triples. do 1 right. left. }
    assert (b' = a ∨ b' = b) as Hb'.
    { apply (has_added_in ont id a b s id b'), Hiff.
      unfold attempt_triples. do 2 right. left. }
    lia.
  - intros (<- & <- & [[<- <-]|[<- <-]]); [done|].
    apply set_eq. intros t. rewrite !elem_of_list_to_set.
    split; apply attempt_triples_comm.
Qed.

Lemma size_list_to_set_le (l : list triple) :
  (size (list_to_set (C:=gset triple) l) ≤ length l)%nat.
Proof.
  induction l as [|x l IH]; [done|]. cbn [list_to_set length].
  rewrite size_union_alt, size_singleton.
  pose proof (subseteq_size (list_to_set (C:=gset triple) l ∖ {[x]})
                (list_to_set l) ltac:(apply subseteq_difference_l; done)).
  lia.
Qed.

Lemma size_list_to_set_NoDup (l : list triple) :
  size (list_to_set (C:=gset triple) l) = length l → NoDup l.
Proof.
  induction l as [|x l IH]; [constructor|]. cbn [list_to_set length].
  intros Hsize. pose proof (size_list_to_set_le l) as Hle.
  destruct (decide (x ∈ l)) as [Hin|Hnin].
  - rewrite subseteq_union_1_L in Hsize; [lia|].
    apply elem_of_subseteq_singleton. by apply elem_of_list_to_set.
  - constructor; [done|]. apply IH.
    rewrite size_union, size_singleton in Hsize; [lia|].
    apply disjoint_singleton_l. by rewrite elem_of_list_to_set.
Qed.

(** X13. The graph of an attempt has at most ten triples, and exactly ten
    when the two operands and the submitted answer are pairwise different;
    coinciding values share a node and merge its triples. *)
Theorem attempt_graph_size
    (ont : Graph) (id a b s : Z) (w : World) :
  ∃ g,
    (annotate ont id a b s w).1 = Ok g ∧
    (size (triples g) ≤ 10)%nat ∧
    (size (triples g) = 10%nat ↔ a ≠ b ∧ a ≠ s ∧ b ≠ s).
Proof.
  rewrite annotate_run. eexists. split; [reflexivity|].
  cbn [fst attempt_graph triples]. split.
  - apply (size_list_to_set_le (attempt_triples ont id a b s)).
  - split.
    + intros Hsize.
      apply (size_list_to_set_NoDup (attempt_triples ont id a b s)) in Hsize.
      pose proof (proj1 (NoDup_alt _) Hsize) as Hnd.
      unfold attempt_triples in Hnd. split_and!.
      * intros ->. by specialize (Hnd 4%nat 5%nat _ eq_refl eq_refl).
      * intros ->. by specialize (Hnd 4%nat 6%nat _ eq_refl eq_refl).
      * intros ->. by specialize (Hnd 5%nat 6%nat _ eq_refl eq_refl).
    + intros (Hab & Has & Hbs).
      rewrite size_list_to_set; [done|].
      unfold attempt_triples.
      repeat (apply NoDup_cons; split;
        [ rewrite ?elem_of_cons, elem_of_nil; intros H;
          repeat (destruct H as [H|H]); try done; split_triple_eq H;
          match goal with
          | E : num_iri _ _ _ = num_iri _ _ _ |- _ =>
              by apply num_iri_inj in E as [? _]
          end
        | ]).
      apply NoDup_nil_2.
Qed.

(** ** Accounts *)

Lemma first_by_email_None (email : string) (table : list User.t) :
  first_by_email email table = None ↔ email ∉ User.email <$> table.
Proof.
  unfold first_by_email. induction table as [|u table IH]; cbn.
  - split; [intros _; apply not_elem_of_nil|done].
  - rewrite not_elem_of_cons.
    destruct (String.eqb_spec (User.email u) email) as [->|Hne].
    + split; [done|]. by intros [? _].
    + rewrite IH. split; [by auto|]. by intros [_ ?].
Qed.

Lemma first_by_email_Some (email : string) (table : list User.t) (u : User.t) :
  first_by_email email table = Some u → u ∈ table ∧ User.email u = email.
Proof.
  unfold first_by_email. intros H. apply find_some in H as [Hin Heq].
  split; [by apply list_elem_of_In|by apply String.eqb_eq].
Qed.

Lemma next_user_id_fresh (table : list User.t) (u : User.t) :
  u ∈ table → User.id u < next_user_id table.
Proof.
  unfold next_user_id. induction 1 as [u l|u u' l _ IH]; simpl; lia.
Qed.

Lemma register_users gen method form salt w :
  users (register gen method form salt w).2 = users w ∨
  ∃ email password,
    form !! "email" = Some email ∧ form !! "password" = Some password ∧
    first_by_email email (users w) = None ∧
    register gen method form salt w
    = (Ok (Redirect "home"),
       mkAccounts
         (users w ++ [User.mk (next_user_id (users w)) email
                        (gen salt password)])
         (Some (Py.str (next_user_id (users w)))) (flashes w)).
Proof.
  unfold register. destruct method; [by left|].
  destruct (form !! "email") as [email|]; [|by left].
  destruct (form !! "password") as [password|]; [|by left].
  destruct (first_by_email email (users w)) eqn:E; [by left|].
  right. by exists email, password.
Qed.

(** X14. Registration keeps e-mail addresses and user keys unique and never
    removes or alters an existing account, whatever the request. *)
Theorem register_keeps_accounts_unique
    (gen : string → string → string) method form salt w :
  NoDup (User.email <$> users w) →
  NoDup (User.id <$> users w) →
  NoDup (User.email <$> users (register gen method form salt w).2) ∧
  NoDup (User.id <$> users (register gen method form salt w).2) ∧
  ∀ u, u ∈ users w → u ∈ users (register gen method form salt w).2.
Proof.
  intros He Hi.
  destruct (register_users gen method form salt w)
    as [->|(email & password & _ & _ & Hfree & ->)]; [done|].
  cbn [snd users]. rewrite !fmap_app. split_and!.
  - apply NoDup_app. split_and!; [done| |apply NoDup_singleton].
    intros e Hin Hin'. apply list_elem_of_singleton in Hin'. cbn in Hin'.
    subst e. by apply first_by_email_None in Hfree.
  - apply NoDup_app. split_and!; [done| |apply NoDup_singleton].
    intros i Hin Hin'. apply list_elem_of_fmap in Hin as (u & -> & Hu).
    apply list_elem_of_singleton in Hin'. cbn in Hin'.
    apply next_user_id_fresh in Hu. lia.
  - intros u Hu. apply elem_of_app. by left.
Qed.

(** An instance: a second account next to an existing one. *)
Lemma register_keeps_accounts_unique_witness :
  NoDup (User.email <$>
           users (register toy_generate_password_hash POST
                    (credentials "ann@x.org" "pw") "salt"
                    (mkAccounts [User.mk 1 "bob@x.org" "h"] None [])).2) ∧
  NoDup (User.id <$>
           users (register toy_generate_password_hash POST
                    (credentials "ann@x.org" "pw") "salt"
                    (mkAccounts [User.mk 1 "bob@x.org" "h"] None [])).2) ∧
  ∀ u, u ∈ users (mkAccounts [User.mk 1 "bob@x.org" "h"] None []) →
       u ∈ users (register toy_generate_password_hash POST
                    (credentials "ann@x.org" "pw") "salt"
                    (mkAccounts [User.mk 1 "bob@x.org" "h"] None [])).2.
Proof.
  apply (register_keeps_accounts_unique toy_generate_password_hash POST
           (credentials "ann@x.org" "pw") "salt"
           (mkAccounts [User.mk 1 "bob@x.org" "h"] None []));
    apply (bool_decide_unpack _); by vm_compute.
Defined.

(** X15. Registering an address that some account already uses changes no
    account and logs nobody in: the message "Email already registered" is
    flashed and the browser is sent back to the registration page. *)
Theorem register_rejects_taken_email
    (gen : string → string → string) form salt w email password u :
  form !! "email" = Some email →
  form !! "password" = Some password →
  u ∈ users w → User.email u = email →
  register gen POST form salt w
  = (Ok (Redirect "register"), flash "Email already registered" w).
Proof.
  intros Hemail Hpw Hu Heq. unfold register. rewrite Hemail, Hpw.
  destruct (first_by_email email (users w)) eqn:E; [done|].
  apply first_by_email_None in E. destruct E. subst email.
  by apply list_elem_of_fmap_2.
Qed.

(** An instance: the address of the only account. *)
Lemma register_rejects_taken_email_witness :
  register toy_generate_password_hash POST
    (credentials "bob@x.org" "pw") "salt"
    (mkAccounts [User.mk 1 "bob@x.org" "h"] None [])
  = (Ok (Redirect "register"),
     flash "Email already registered"
       (mkAccounts [User.mk 1 "bob@x.org" "h"] None [])).
Proof.
  apply (register_rejects_taken_email toy_generate_password_hash
           (credentials "bob@x.org" "pw") "salt"
           (mkAccounts [User.mk 1 "bob@x.org" "h"] None [])
           "bob@x.org" "pw" (User.mk 1 "bob@x.org" "h"));
    [reflexivity|reflexivity|left|reflexivity].
Defined.

Lemma first_by_email_snoc (email : string) (table : list User.t) (u : User.t) :
  first_by_email email table = None → User.email u = email →
  first_by_email email (table ++ [u]) = Some u.
Proof.
  unfold first_by_email. intros Hnone <-.
  induction table as [|v table IH]; cbn in *.
  - by rewrite String.eqb_refl.
  - destruct (String.eqb (User.email v) (User.email u)); [done|]. by apply IH.
Qed.

(** X16. With a password hash that accepts the password it was made from:
    registering a fresh address logs the new user in under the next key,
    and after logging out, logging in with the same address and password
    succeeds and restores exactly that state. *)
Theorem register_then_login
    (dec : N → option N)
    (gen : string → string → string) (check : string → string → bool)
    form salt w email password :
  (∀ salt p, check (gen salt p) p = true) →
  form !! "email" = Some email →
  form !! "password" = Some password →
  email ∉ User.email <$> users w →
  session_user_id (register gen POST form salt w).2
    = Some (Py.str (next_user_id (users w))) ∧
  login check POST form (logout dec (register gen POST form salt w).2).2
    = (Ok (Redirect "home"), (register gen POST form salt w).2).
Proof.
  intros Hhash Hemail Hpw Hfree. apply first_by_email_None in Hfree.
  unfold register. rewrite Hemail, Hpw, Hfree. unfold login_user.
  cbn [snd users session_user_id flashes User.id].
  split; [done|].
  set (new := User.mk (next_user_id (users w)) email (gen salt password)).
  assert (∀ session,
    login check POST form (mkAccounts (users w ++ [new]) session (flashes w))
    = (Ok (Redirect "home"),
       mkAccounts (users w ++ [new])
         (Some (Py.str (next_user_id (users w)))) (flashes w))) as Hlogin.
  { intros session. unfold login. rewrite Hemail, Hpw.
    cbn [users]. rewrite (first_by_email_snoc email (users w) new Hfree eq_refl).
    cbn [User.password_hash new]. by rewrite Hhash. }
  unfold logout, current_user, load_user. cbn [session_user_id users].
  destruct (PyInt.int dec (Py.str (next_user_id (users w)))) as [m|] eqn:E.
  - apply int_str_inv in E as ->.
    destruct (fits_int64 (next_user_id (users w))); [|apply Hlogin].
    destruct (List.find (λ u, User.id u =? next_user_id (users w))
                (users w ++ [new])) as [u|] eqn:F.
    + unfold logout_user. cbn [snd users flashes]. apply Hlogin.
    + apply find_none with (x := new) in F.
      * cbn in F. by rewrite Z.eqb_refl in F.
      * apply in_or_app. right. by left.
  - apply Hlogin.
Qed.

Lemma toy_hash_checks (salt p : string) :
  toy_check_password_hash (toy_generate_password_hash salt p) p = true.
Proof. apply endswith_iff. by exists salt. Qed.

(** An instance: the first account, with the toy hash. *)
Lemma register_then_login_witness :
  session_user_id
    (register toy_generate_password_hash POST
       (credentials "ann@x.org" "pw") "salt" accounts0).2
    = Some (Py.str (next_user_id (users accounts0))) ∧
  login toy_check_password_hash POST (credentials "ann@x.org" "pw")
    (logout unicode_14
       (register toy_generate_password_hash POST
          (credentials "ann@x.org" "pw") "salt" accounts0).2).2
    = (Ok (Redirect "home"),
       (register toy_generate_password_hash POST
          (credentials "ann@x.org" "pw") "salt" accounts0).2).
Proof.
  apply (register_then_login unicode_14 toy_generate_password_hash
           toy_check_password_hash (credentials "ann@x.org" "pw") "salt"
           accounts0 "ann@x.org" "pw").
  - apply toy_hash_checks.
  - reflexivity.
  - reflexivity.
  - apply not_elem_of_nil.
Defined.

(** X17. A login attempt never changes the accounts.  It succeeds only for
    an account with the given address whose stored hash accepts the
    password; every failure, unknown address or wrong password alike, gives
    the same page and the same message. *)
Theorem login_outcomes
    (check : string → string → bool) form w email password :
  form !! "email" = Some email →
  form !! "password" = Some password →
  users (login check POST form w).2 = users w ∧
  (login check POST form w
     = (Ok (Render "login.html"), flash "Invalid email or password" w) ∨
   ∃ u, u ∈ users w ∧ User.email u = email ∧
        check (User.password_hash u) password = true ∧
        login check POST form w = (Ok (Redirect "home"), login_user u w)).
Proof.
  intros Hemail Hpw. unfold login. rewrite Hemail, Hpw.
  destruct (first_by_email email (users w)) as [u|] eqn:E; [|by auto].
  apply first_by_email_Some in E as [Hu He].
  destruct (check (User.password_hash u) password) eqn:Hc; [|by auto].
  split; [done|]. right. by exists u.
Qed.

(** An instance: a wrong password. *)
Lemma login_outcomes_witness :
  users (login toy_check_password_hash POST (credentials "bob@x.org" "no")
           (mkAccounts [User.mk 1 "bob@x.org" "s$pw"] None [])).2
    = users (mkAccounts [User.mk 1 "bob@x.org" "s$pw"] None []) ∧
  (login toy_check_password_hash POST (credentials "bob@x.org" "no")
     (mkAccounts [User.mk 1 "bob@x.org" "s$pw"] None [])
     = (Ok (Render "login.html"),
        flash "Invalid email or password"
          (mkAccounts [User.mk 1 "bob@x.org" "s$pw"] None [])) ∨
   ∃ u, u ∈ users (mkAccounts [User.mk 1 "bob@x.org" "s$pw"] None []) ∧
        User.email u = "bob@x.org" ∧
        toy_check_password_hash (User.password_hash u) "no" = true ∧
        login toy_check_password_hash POST (credentials "bob@x.org" "no")
          (mkAccounts [User.mk 1 "bob@x.org" "s$pw"] None [])
        = (Ok (Redirect "home"),
           login_user u (mkAccounts [User.mk 1 "bob@x.org" "s$pw"] None []))).
Proof.
  apply (login_outcomes toy_check_password_hash (credentials "bob@x.org" "no")
           (mkAccounts [User.mk 1 "bob@x.org" "s$pw"] None [])
           "bob@x.org" "no"); reflexivity.
Defined.

Lemma find_by_unique_id (table : list User.t) (u : User.t) :
  NoDup (User.id <$> table) → u ∈ table →
  List.find (λ v, User.id v =? User.id u) table = Some u.
Proof.
  intros Hnd Hu.
  induction table as [|v table IH]; [by apply elem_of_nil in Hu|].
  rewrite fmap_cons in Hnd. apply NoDup_cons in Hnd as [Hv Hnd]. cbn.
  apply elem_of_cons in Hu as [->|Hu].
  - by rewrite Z.eqb_refl.
  - destruct (Z.eqb_spec (User.id v) (User.id u)) as [Heq|_]; [|by apply IH].
    destruct Hv. rewrite Heq. by apply list_elem_of_fmap_2.
Qed.

(** X18. The user loader reads back what [login_user] stores: for a table
    with unique keys, loading the text [str(user.id)] of a stored user,
    whose key fits in 64 bits as every stored key does, returns that
    user. *)
Theorem load_user_finds_session_user
    (dec : N → option N) (table : list User.t) (u : User.t) :
  NoDup (User.id <$> table) → u ∈ table →
  fits_int64 (User.id u) = true →
  load_user dec (Py.str (User.id u)) table = Ok (Some u).
Proof.
  intros Hnd Hu Hfits. unfold load_user.
  rewrite int_str by (by apply fits_int64_limit). rewrite Hfits.
  by rewrite find_by_unique_id.
Qed.

(** An instance: the second of two accounts. *)
Lemma load_user_finds_session_user_witness :
  load_user unicode_14 (Py.str (User.id (User.mk 2 "ann@x.org" "h2")))
    [User.mk 1 "bob@x.org" "h"; User.mk 2 "ann@x.org" "h2"]
  = Ok (Some (User.mk 2 "ann@x.org" "h2")).
Proof.
  apply (load_user_finds_session_user unicode_14
           [User.mk 1 "bob@x.org" "h"; User.mk 2 "ann@x.org" "h2"]
           (User.mk 2 "ann@x.org" "h2")).
  - apply (bool_decide_unpack _). by vm_compute.
  - right. left.
  - reflexivity.
Defined.

(** X19. Logging out needs a login.  With nobody logged in, the body of
    [logout] does not run: the login manager flashes its message and sends
    the browser to the login page, with the path asked for as [next].
    With a stored user logged in, the session is cleared and the browser is
    sent to the login page.  No outcome changes the accounts. *)
Theorem logout_outcomes (dec : N → option N) (w : Accounts) :
  (session_user_id w = None →
   logout dec w
   = (Ok (RedirectLogin "/logout"),
      flash "Please log in to access this page." w)) ∧
  (∀ u, NoDup (User.id <$> users w) → u ∈ users w →
        fits_int64 (User.id u) = true →
        session_user_id w = Some (Py.str (User.id u)) →
        logout dec w = (Ok (Redirect "login"), logout_user w) ∧
        session_user_id (logout dec w).2 = None) ∧
  users (logout dec w).2 = users w.
Proof.
  unfold logout, current_user. split_and!.
  - by intros ->.
  - intros u Hnd Hu Hfits ->. unfold load_user.
    rewrite int_str by (by apply fits_int64_limit). rewrite Hfits.
    by rewrite find_by_unique_id.
  - destruct (session_user_id w) as [v|]; [|done].
    by destruct (load_user dec v (users w)) as [[u|]|e].
Qed.
